(** * Refresh service: eligibility, index-impact analysis and reissuance

    A shallow embedding of [service/refresh.go] and of the issuer client
    (the [IssuerService] type with [GetClaimByID] and [CreateCredential]).

    Conventions of the embedding.
    - A Go [interface{}] holding decoded JSON is a [value]; [JNull] is the
      nil interface.  Decoded numbers are finite [float64]s, every one of
      which is a rational, so a number is a [Q] compared by value.
    - A Go [map[string]T] is a [gmap string T]; a map that may be nil is an
      [option].  A slice that may be nil is an [option (list _)].
    - A Go [(T, error)] result is a [result T]; a lone [error] result is an
      [option error] with [None] for nil.
    - A call that may fault at run time yields an [outcome]: it returns,
      returns an error, or panics.  The faults are those of the source
      itself: the comparison of two interface values that cannot be
      compared, a write to a nil map, a read through a nil pointer.
    - Library and network collaborators are the fields of [Oracles] and of
      the two service records.  A collaborator keeps to its signature: it
      returns a value or an error, and does not write to what it is handed.
    - Logging is left out. *)

From Stdlib Require Import QArith Ascii String.
From stdpp Require Import gmap strings list fin_maps pretty.

Set Warnings "-register-all".
#[local] Open Scope string_scope.
#[local] Open Scope list_scope.
#[local] Open Scope Z_scope.

(** ** Values, errors and results *)

Inductive value : Type :=
| JNull
| JBool (b : bool)
| JNum (q : Q)
| JStr (s : string)
| JArr (l : list value)
| JObj (m : gmap string value).

(** [errors.New] / [errors.Errorf] build a fresh error from its text;
    [errors.Wrap] / [errors.Wrapf] put a text in front of a cause. *)
Inductive error : Type :=
| New (msg : string)
| Wrap (cause : error) (msg : string).

Fixpoint Error (e : error) : string :=
  match e with
  | New msg => msg
  | Wrap cause msg => msg +:+ ": " +:+ Error cause
  end.

Inductive result (A : Type) : Type :=
| Ok (a : A)
| Err (e : error).
Arguments Ok {A} a.
Arguments Err {A} e.

Inductive outcome (A : Type) : Type :=
| Done (a : A)
| Failed (e : error)
| Panicked (msg : string).
Arguments Done {A} a.
Arguments Failed {A} e.
Arguments Panicked {A} msg.

Definition ErrCredentialNotUpdatable : error := New "not updatable".
Definition errIndexSlotsNotUpdated : error := New "no index fields were updated".
Definition ErrIssuerNotSupported : error := New "issuer is not supported".
Definition ErrGetClaim : error := New "failed to get claim".
Definition ErrCreateClaim : error := New "failed to create claim".

(** ** The [strings] package *)

Definition code (c : ascii) : N := N_of_ascii c.

(** The six ASCII white-space bytes: tab, line feed, vertical tab, form
    feed, carriage return and space. *)
Definition asciiSpace (c : ascii) : bool :=
  let n := code c in
  ((n =? 9) || (n =? 10) || (n =? 11) || (n =? 12) || (n =? 13) || (n =? 32))%N.

(** UTF-8 encodings of the white-space runes above U+007F that
    [unicode.IsSpace] accepts: U+0085 and U+00A0 on two bytes, U+1680,
    U+2000..U+200A, U+2028, U+2029, U+202F, U+205F and U+3000 on three. *)
Definition two_byte_space (a b : N) : bool :=
  ((a =? 194) && ((b =? 133) || (b =? 160)))%N.

Definition three_byte_space (a b c : N) : bool :=
  (((a =? 225) && (b =? 154) && (c =? 128))
   || ((a =? 226) && (b =? 128)
       && (((128 <=? c) && (c <=? 138)) || (c =? 168) || (c =? 169) || (c =? 175)))
   || ((a =? 226) && (b =? 129) && (c =? 159))
   || ((a =? 227) && (b =? 128) && (c =? 128)))%N.

(** Number of bytes of the white-space rune the string starts with, 0 when
    it starts with none. *)
Definition leading_space (s : string) : nat :=
  match s with
  | String a r =>
      if asciiSpace a then 1%nat else
      match r with
      | String b r' =>
          if two_byte_space (code a) (code b) then 2%nat else
          match r' with
          | String c _ =>
              if three_byte_space (code a) (code b) (code c) then 3%nat else 0%nat
          | EmptyString => 0%nat
          end
      | EmptyString => 0%nat
      end
  | EmptyString => 0%nat
  end.

(** The same on the reversed string: the rune the string ends with. *)
Definition trailing_space_rev (s : string) : nat :=
  match s with
  | String c r =>
      if asciiSpace c then 1%nat else
      match r with
      | String b r' =>
          if two_byte_space (code b) (code c) then 2%nat else
          match r' with
          | String a _ =>
              if three_byte_space (code a) (code b) (code c) then 3%nat else 0%nat
          | EmptyString => 0%nat
          end
      | EmptyString => 0%nat
      end
  | EmptyString => 0%nat
  end.

Fixpoint string_drop (n : nat) (s : string) : string :=
  match n, s with
  | S n', String _ s' => string_drop n' s'
  | _, _ => s
  end.

Fixpoint trim_with (width : string -> nat) (fuel : nat) (s : string) : string :=
  match fuel with
  | O => s
  | S fuel' =>
      match width s with
      | O => s
      | n => trim_with width fuel' (string_drop n s)
      end
  end.

(** [strings.TrimSpace]: leading and trailing white space removed, one rune
    at a time; the fuel is the length of the string, which bounds the
    number of runes. *)
Definition TrimSpace (s : string) : string :=
  let l := trim_with leading_space (String.length s) s in
  String.rev (trim_with trailing_space_rev (String.length l) (String.rev l)).

(** [strings.Contains s substr]. *)
Fixpoint Contains (s substr : string) : bool :=
  if String.prefix substr s then true
  else match s with
       | EmptyString => false
       | String _ s' => Contains s' substr
       end.

(** [strings.SplitN s sep 2] for a one-byte separator: the text before the
    first separator and the text after it, or the whole string alone. *)
Fixpoint SplitN2 (sep : ascii) (s : string) : list string :=
  match s with
  | EmptyString => [EmptyString]
  | String c s' =>
      if Ascii.eqb c sep then [EmptyString; s']
      else match SplitN2 sep s' with
           | [p] => [String c p]
           | p :: rest => String c p :: rest
           | [] => []
           end
  end.

(** ** Credentials *)

Module verifiable.

Record CredentialSchema : Type := {
  SchemaID : string;
  SchemaType : string
}.

(** [verifiable.W3CCredential], with the fields the service reads.
    [Expiration] is a [*time.Time], here an instant in nanoseconds;
    [Other] stands for the fields the service never names. *)
Record W3CCredential : Type := {
  ID : string;
  Context : option (list string);
  Type_ : option (list string);
  Expiration : option Z;
  CredentialSubject : option (gmap string value);
  CredentialStatus : value;
  Issuer : string;
  Schema : CredentialSchema;
  RefreshService : option value;
  DisplayMethod : option value;
  Other : value
}.

Definition set_Context (ctx : option (list string)) (c : W3CCredential) : W3CCredential :=
  {| ID := ID c; Context := ctx; Type_ := Type_ c; Expiration := Expiration c;
     CredentialSubject := CredentialSubject c; CredentialStatus := CredentialStatus c;
     Issuer := Issuer c; Schema := Schema c; RefreshService := RefreshService c;
     DisplayMethod := DisplayMethod c; Other := Other c |}.

Definition set_CredentialSubject (s : option (gmap string value)) (c : W3CCredential)
  : W3CCredential :=
  {| ID := ID c; Context := Context c; Type_ := Type_ c; Expiration := Expiration c;
     CredentialSubject := s; CredentialStatus := CredentialStatus c;
     Issuer := Issuer c; Schema := Schema c; RefreshService := RefreshService c;
     DisplayMethod := DisplayMethod c; Other := Other c |}.

End verifiable.

Abbreviation W3CCredential := verifiable.W3CCredential.

(** ** Eligibility *)

(** [isUpdatable], with the reading of [time.Now()] as an argument;
    [t.After(u)] is [u < t]. *)
Definition isUpdatable (credential : option W3CCredential) (now : Z) : option error :=
  match credential with
  | None => Some (New "nil credential")
  | Some c =>
      match verifiable.Expiration c with
      | None => Some (New "credential expiration is nil")
      | Some expiration =>
          if now <? expiration then Some (New "not expired")
          else
            match verifiable.CredentialSubject c with
            | None => Some (New "credential subject is nil")
            | Some subject =>
                match subject !! "id" with
                | None => Some (New "id field missing in credentialSubject")
                | Some JNull => Some (New "id field is nil in credentialSubject")
                | Some (JStr idVal) =>
                    if String.eqb (TrimSpace idVal) ""
                    then Some (New "credential subject does not have a valid id")
                    else None
                | Some _ => Some (New "credential subject does not have a valid id")
                end
            end
      end
  end.

(** [checkOwnerShip]: [idValue != owner] compares an interface with a
    string, and is false only for a string with the same bytes. *)
Definition checkOwnerShip (credential : option W3CCredential) (owner : string) : option error :=
  match credential with
  | None => Some (New "nil credential")
  | Some c =>
      match verifiable.CredentialSubject c with
      | None => Some (New "credential subject is nil")
      | Some subject =>
          match subject !! "id" with
          | None => Some (New "credential subject does not have an id field")
          | Some (JStr idValue) =>
              if String.eqb idValue owner then None
              else Some (New "not owner of the credential")
          | Some _ => Some (New "not owner of the credential")
          end
      end
  end.

(** ** Revocation nonce *)

(** Integer part of a rational, rounded toward zero. *)
Definition truncate (q : Q) : Z := Z.quot (Qnum q) (Zpos (Qden q)).

(** The conversion [uint64(n)] of a [float64].  The fraction is dropped.
    The language leaves the result open when the integer part does not fit;
    this is what the amd64 compiler emits: a value below 2^63 goes through
    the signed conversion and is read back as unsigned (so a negative value
    wraps), a value from 2^63 up to 2^64 is exact, and every value the
    signed conversion cannot hold gives 2^63. *)
Definition uint64_of_float64 (n : Q) : Z :=
  let t := truncate n in
  if (- 2 ^ 63 <=? t) && (t <? 2 ^ 63) then t mod 2 ^ 64
  else if (2 ^ 63 <=? t) && (t <? 2 ^ 64) then t
  else 2 ^ 63.

Definition extractRevocationNonce (credential : option W3CCredential) : Z * option error :=
  match credential with
  | None => (0, Some (New "nil credential in extractRevocationNonce"))
  | Some c =>
      match verifiable.CredentialStatus c with
      | JObj credentialStatusInfo =>
          match credentialStatusInfo !! "revocationNonce" with
          | None => (0, Some (New "revocationNonce not found in credential status"))
          | Some (JNum n) => (uint64_of_float64 n, None)
          | Some _ => (0, Some (New "revocationNonce is not a number"))
          end
      | _ => (0, Some (New "invalid credential status"))
      end
  end.

(** ** Collaborators *)

Module core.
Inductive MerklizedRootPosition : Type :=
| MerklizedRootPositionNone
| MerklizedRootPositionIndex
| MerklizedRootPositionValue.
End core.

Module ld.
Record RemoteDocument : Type := {
  DocumentURL : string;
  Document : value;
  ContextURL : string
}.

(** [LoadDocument(u)] returns a document pointer, possibly nil, or an
    error. *)
Definition DocumentLoader : Type := string -> result (option RemoteDocument).
End ld.

Module flexiblehttp.
(** A provider: [Provide] answers with a map, possibly nil, or an error;
    [TimeExpiration] is [Settings.TimeExpiration], in nanoseconds. *)
Record FlexibleHTTP : Type := {
  Provide : gmap string value -> result (option (gmap string value));
  TimeExpiration : Z
}.

Record FactoryFlexibleHTTP : Type := {
  ProduceFlexibleHTTP : string -> result FlexibleHTTP
}.
End flexiblehttp.

Module http.
Record Request : Type := {
  Method : string;
  URL : string;
  RequestBody : option string;
  BasicAuth : option (string * string)
}.

(** [Body] is what reading the response body to its end gives. *)
Record Response : Type := {
  StatusCode : Z;
  Body : result string
}.

(** [client.Do]: the answer may depend on the requests sent before. *)
Definition Client : Type := list Request -> Request -> result Response.

Definition StatusOK : Z := 200.
Definition StatusCreated : Z := 201.
End http.

(** The struct [credentialRequest]; [Expiration] is in Unix seconds. *)
Module request.
Record credentialRequest : Type := {
  CredentialSchema : string;
  Type_ : string;
  CredentialSubject : option (gmap string value);
  Expiration : Z;
  RefreshService : option value;
  RevNonce : option Z;
  DisplayMethod : option value
}.
End request.

Abbreviation credentialRequest := request.credentialRequest.

(** What the run observes, in order.  [EvIndexCheck] records the verdict
    with which the index-impact check returned to [Process]. *)
Inductive event : Type :=
| EvGetClaimByID (issuerDID claimID : string)
| EvCreateCredential (issuerDID : string) (req : credentialRequest)
| EvDo (req : http.Request)
| EvIndexCheck (verdict : option error).

(** The libraries the service calls, as functions of their inputs.
    Encoding a [value] cannot fail, since a [value] holds only what
    [encoding/json] encodes; [range_order] is the order in which a [range]
    statement visits a map, which the language leaves open. *)
Record Oracles : Type := {
  Claim : Type;
  json_Marshal : value -> string;
  marshal_credential : W3CCredential -> string;
  marshal_request : credentialRequest -> result string;
  unmarshal_vc : string -> result W3CCredential;
  decode_id : result string -> result string;
  url_error : string -> option error;
  strconv_Quote : string -> string;
  ParseClaim : option ld.DocumentLoader -> W3CCredential -> result Claim;
  GetMerklizedPosition : Claim -> result core.MerklizedRootPosition;
  GetFieldSlotIndex : string -> string -> string -> result Z;
  TypeIDFromContext : option ld.DocumentLoader -> string -> string -> result string;
  range_order : gmap string value -> list (string * value);
  time_Now : list event -> Z
}.

Record IssuerService : Type := {
  supportedIssuers : gmap string string;
  issuerBasicAuth : option (gmap string string);
  client : http.Client
}.

Record RefreshService : Type := {
  issuerService : option IssuerService;
  documentLoader : option ld.DocumentLoader;
  providers : flexiblehttp.FactoryFlexibleHTTP
}.

(** ** Context aggregation *)

(** One iteration of the loop of [loadContexts] over the accumulated
    [res.Contexts]. *)
Definition loadContexts_step (dl : ld.DocumentLoader) (acc : list value) (context : string)
  : list value :=
  if String.eqb context "" then acc
  else
    match dl context with
    | Err _ => acc
    | Ok None => acc
    | Ok (Some remoteDocument) =>
        match ld.Document remoteDocument with
        | JObj document =>
            match document !! "@context" with
            | None => acc
            | Some (JArr v) => acc ++ v
            | Some ldContext => acc ++ [ldContext]
            end
        | _ => acc
        end
    end.

(** The struct [uploadedContexts] as the encoder sees it.  [res.Contexts]
    starts nil and [append] leaves a nil slice nil when it adds nothing, so
    the slice is nil exactly when it is empty, and a nil slice encodes as
    null. *)
Definition uploadedContexts (contexts : list value) : value :=
  JObj {[ "@context" := match contexts with [] => JNull | _ => JArr contexts end ]}.

Definition loadContexts (E : Oracles) (rs : RefreshService) (contexts : option (list string))
  : result string :=
  match documentLoader rs with
  | None => Err (New "documentLoader is nil in loadContexts")
  | Some dl =>
      match contexts with
      | None | Some [] => Ok (json_Marshal E (JObj {[ "@context" := JArr [] ]}))
      | Some cs => Ok (json_Marshal E (uploadedContexts (foldl (loadContexts_step dl) [] cs)))
      end
  end.

(** ** Index-impact analysis *)

(** [x != y] on two interface values.  Values of different dynamic types
    differ; two slices or two maps cannot be compared and the comparison
    panics ([None]). *)
Definition iface_neq (x y : value) : option bool :=
  match x, y with
  | JNull, JNull => Some false
  | JBool a, JBool b => Some (negb (Bool.eqb a b))
  | JNum a, JNum b => Some (negb (Qeq_bool a b))
  | JStr a, JStr b => Some (negb (String.eqb a b))
  | JArr _, JArr _ => None
  | JObj _, JObj _ => None
  | _, _ => Some true
  end.

Definition uncomparable : string := "runtime error: comparing uncomparable type".

(** The body of the loop over the old subject, for one entry: [None] when
    the loop goes on to the next entry, [Some r] when the function returns
    [r] from inside the loop. *)
Definition field_step (E : Oracles) (credentialBytes : string)
    (oldValues newValues : gmap string value) (kv : string * value)
  : option (outcome unit) :=
  let '(k, v) := kv in
  if String.eqb k "type" || String.eqb k "id" then None
  else
    match oldValues !! "type" with
    | None | Some JNull => None
    | Some (JStr typeStr) =>
        match GetFieldSlotIndex E k typeStr credentialBytes with
        | Err err =>
            if Contains (Error err) "not specified in serialization info"
            then Some (Done tt)
            else Some (Failed err)
        | Ok slotIndex =>
            match newValues !! k with
            | None => None
            | Some newValue =>
                if (slotIndex =? 2) || (slotIndex =? 3)
                then match iface_neq v newValue with
                     | Some true => Some (Done tt)
                     | Some false => None
                     | None => Some (Panicked uncomparable)
                     end
                else None
            end
        end
    | Some _ => None
    end.

Fixpoint range_fields (body : string * value -> option (outcome unit))
    (entries : list (string * value)) : option (outcome unit) :=
  match entries with
  | [] => None
  | kv :: rest =>
      match body kv with
      | Some r => Some r
      | None => range_fields body rest
      end
  end.

(** [if credential.Context == nil { credential.Context = []string{} }]. *)
Definition ensure_Context (c : W3CCredential) : W3CCredential :=
  match verifiable.Context c with
  | None => verifiable.set_Context (Some []) c
  | Some _ => c
  end.

(** [isUpdatedIndexSlots].  [Done tt] is the nil error, the verdict
    Updated.  The credential is passed by pointer and the function may
    write to it, so the credential as it is after the call comes back with
    the verdict. *)
Definition isUpdatedIndexSlots (E : Oracles) (rs : RefreshService)
    (credential : option W3CCredential) (oldValues newValues : gmap string value)
  : option W3CCredential * outcome unit :=
  match credential with
  | None => (None, Failed (New "nil credential in isUpdatedIndexSlots"))
  | Some c =>
      match ParseClaim E (documentLoader rs) c with
      | Err err => (Some c, Failed (New ("invalid w3c credential: " +:+ Error err)))
      | Ok claim =>
          match GetMerklizedPosition E claim with
          | Err err =>
              (Some c, Failed (New ("failed to get merklized position: " +:+ Error err)))
          | Ok core.MerklizedRootPositionIndex => (Some c, Done tt)
          | Ok core.MerklizedRootPositionValue => (Some c, Failed errIndexSlotsNotUpdated)
          | Ok core.MerklizedRootPositionNone =>
              let c' := ensure_Context c in
              match loadContexts E rs (verifiable.Context c') with
              | Err err =>
                  (Some c', Failed (New ("failed to load contexts: " +:+ Error err)))
              | Ok credentialBytes =>
                  match range_fields (field_step E credentialBytes oldValues newValues)
                          (range_order E oldValues) with
                  | Some r => (Some c', r)
                  | None => (Some c', Failed errIndexSlotsNotUpdated)
                  end
              end
          end
      end
  end.

(** ** Runs: events, the fetched credential, and faults *)

(** [cell] is the credential object the first fetch returned, which
    [Process] holds by pointer and writes to. *)
Record state : Type := {
  events : list event;
  cell : option W3CCredential
}.

Definition M (A : Type) : Type := state -> outcome A * state.

Definition ret {A : Type} (a : A) : M A := fun s => (Done a, s).

Definition fail {A : Type} (e : error) : M A := fun s => (Failed e, s).

Definition panic {A : Type} (msg : string) : M A := fun s => (Panicked msg, s).

Definition bind {A B : Type} (m : M A) (k : A -> M B) : M B :=
  fun s =>
    match m s with
    | (Done a, s') => k a s'
    | (Failed e, s') => (Failed e, s')
    | (Panicked msg, s') => (Panicked msg, s')
    end.

Notation "x <-- m ;; k" := (bind m (fun x => k))
  (at level 100, m at next level, right associativity).
Notation "m ;;; k" := (bind m (fun _ => k))
  (at level 100, right associativity).

Definition lift {A : Type} (r : result A) : M A :=
  match r with
  | Ok a => ret a
  | Err e => fail e
  end.

(** The result with its error, if any, rewritten by [f]. *)
Definition on_error {A : Type} (f : error -> error) (r : result A) : result A :=
  match r with
  | Ok a => Ok a
  | Err e => Err (f e)
  end.

(** [errors.Wrapf(sentinel, text ++ "%v", err)]. *)
Definition wrapf (sentinel : error) (text : string) (err : error) : error :=
  Wrap sentinel (text +:+ Error err).

Definition require {A : Type} (o : option A) (e : error) : M A :=
  match o with
  | Some a => ret a
  | None => fail e
  end.

Definition reject_if (b : bool) (e : error) : M unit :=
  if b then fail e else ret tt.

(** [if err := f(); err != nil { return nil, g(err) }]. *)
Definition check (err : option error) (f : error -> error) : M unit :=
  match err with
  | Some e => fail (f e)
  | None => ret tt
  end.

Definition emit (ev : event) : M unit :=
  fun s => (Done tt, {| events := events s ++ [ev]; cell := cell s |}).

Definition history : M (list event) := fun s => (Done (events s), s).

Definition load : M (option W3CCredential) := fun s => (Done (cell s), s).

Definition store (c : option W3CCredential) : M unit :=
  fun s => (Done tt, {| events := events s; cell := c |}).

(** The requests handed to [client.Do] so far. *)
Definition sent (evs : list event) : list http.Request :=
  omap (fun ev => match ev with EvDo r => Some r | _ => None end) evs.

Definition init : state := {| events := []; cell := None |}.

(** ** The issuer client *)

Definition getIssuerURL (iss : IssuerService) (issuerDID : string) : result string :=
  match supportedIssuers iss !! issuerDID with
  | Some url => Ok url
  | None =>
      match supportedIssuers iss !! "*" with
      | Some url => Ok url
      | None => Err (Wrap ErrIssuerNotSupported ("id '" +:+ issuerDID +:+ "'"))
      end
  end.

(** [setBasicAuth] writes the credentials into the request; the request
    comes back with the error result. *)
Definition setBasicAuth (E : Oracles) (iss : IssuerService) (issuerDID : string)
    (req : http.Request) : result http.Request :=
  match issuerBasicAuth iss with
  | None => Ok req
  | Some auth =>
      let found :=
        match auth !! issuerDID with
        | Some namepass => Some namepass
        | None => auth !! "*"
        end in
      match found with
      | None => Ok req
      | Some namepass =>
          match SplitN2 ":" namepass with
          | [user; pass] =>
              Ok {| http.Method := http.Method req; http.URL := http.URL req;
                    http.RequestBody := http.RequestBody req;
                    http.BasicAuth := Some (user, pass) |}
          | _ => Err (New ("invalid basic auth: " +:+ strconv_Quote E namepass))
          end
      end
  end.

(** [http.NewRequest]: fails when the URL does not parse. *)
Definition NewRequest (E : Oracles) (method url : string) (body : option string)
  : result http.Request :=
  match url_error E url with
  | Some err => Err err
  | None => Ok {| http.Method := method; http.URL := url;
                  http.RequestBody := body; http.BasicAuth := None |}
  end.

(** [is.client.Do(req)]: the request is on the wire whatever comes back. *)
Definition Do (iss : IssuerService) (req : http.Request) : M (result http.Response) :=
  evs <-- history;;
  emit (EvDo req);;;
  ret (client iss (sent evs) req).

Definition GetClaimByID (E : Oracles) (iss : IssuerService) (issuerDID claimID : string)
  : M (option W3CCredential) :=
  emit (EvGetClaimByID issuerDID claimID);;;
  issuerNode <-- lift (getIssuerURL iss issuerDID);;
  let url := issuerNode +:+ "/v2/identities/" +:+ issuerDID +:+ "/credentials/" +:+ claimID in
  req <-- lift (on_error (wrapf ErrGetClaim "failed to create http request: ")
                  (NewRequest E "GET" url None));;
  req <-- lift (setBasicAuth E iss issuerDID req);;
  answer <-- Do iss req;;
  resp <-- lift (on_error (wrapf ErrGetClaim "failed http GET request: ") answer);;
  reject_if (negb (http.StatusCode resp =? http.StatusOK))
    (Wrap ErrGetClaim ("invalid status code: " +:+ pretty (http.StatusCode resp)));;;
  rawBody <-- lift (on_error (wrapf ErrGetClaim "failed to read response body: ")
                      (http.Body resp));;
  vc <-- lift (on_error (wrapf ErrGetClaim "failed to decode response: ")
                 (unmarshal_vc E rawBody));;
  ret (Some vc).

Definition CreateCredential (E : Oracles) (iss : IssuerService) (issuerDID : string)
    (credReq : credentialRequest) : M string :=
  emit (EvCreateCredential issuerDID credReq);;;
  issuerNode <-- lift (getIssuerURL iss issuerDID);;
  body <-- lift (on_error (fun _ => Wrap ErrCreateClaim "credential request serialization error")
                   (marshal_request E credReq));;
  let url := issuerNode +:+ "/v2/identities/" +:+ issuerDID +:+ "/credentials" in
  req <-- lift (on_error (wrapf ErrCreateClaim "failed to create http request: ")
                  (NewRequest E "POST" url (Some body)));;
  req <-- lift (setBasicAuth E iss issuerDID req);;
  answer <-- Do iss req;;
  resp <-- lift (on_error (wrapf ErrCreateClaim "failed http POST request: ") answer);;
  reject_if (negb (http.StatusCode resp =? http.StatusCreated))
    (Wrap ErrCreateClaim "invalid status code");;;
  lift (on_error (wrapf ErrCreateClaim "failed to decode response: ")
          (decode_id E (http.Body resp))).

(** ** The refresh pipeline *)

Definition Minute : Z := 60 * 1000000000.

(** [t.Unix()]: whole seconds of an instant given in nanoseconds. *)
Definition Unix (t : Z) : Z := t / 1000000000.

(** Reading through the credential pointer. *)
Definition deref : M W3CCredential :=
  fun s =>
    match cell s with
    | Some c => (Done c, s)
    | None => (Panicked "runtime error: invalid memory address or nil pointer dereference", s)
    end.

(** The loop [for k, v := range updatedFields { subject[k] = v }] on a
    subject map that is not nil. *)
Definition merge_subject (E : Oracles) (subject updatedFields : gmap string value)
  : gmap string value :=
  foldl (fun m kv => <[kv.1 := kv.2]> m) subject (range_order E updatedFields).

(** The same loop on the map as the credential holds it: writing to a nil
    map panics. *)
Definition merge_into (E : Oracles) (target : option (gmap string value))
    (updatedFields : gmap string value) : M (option (gmap string value)) :=
  match target, range_order E updatedFields with
  | _, [] => ret target
  | None, _ :: _ => panic "assignment to entry in nil map"
  | Some subject, _ :: _ => ret (Some (merge_subject E subject updatedFields))
  end.

(** The call of [isUpdatedIndexSlots] from [Process], with the wrapping of
    its error. *)
Definition check_index_slots (E : Oracles) (rs : RefreshService)
    (oldValues newValues : gmap string value) : M unit :=
  credential <-- load;;
  let '(after, verdict) := isUpdatedIndexSlots E rs credential oldValues newValues in
  store after;;;
  match verdict with
  | Done _ => emit (EvIndexCheck None)
  | Failed err =>
      emit (EvIndexCheck (Some err));;;
      fail (wrapf ErrCredentialNotUpdatable "index update fail: " err)
  | Panicked msg => panic msg
  end.

(** The body of [Process], from its first statement to its last. *)
Definition Process_body (E : Oracles) (rs : RefreshService) (issuer owner id : string)
  : M (option W3CCredential) :=
  iss <-- require (issuerService rs) (New "issuerService is nil");;
  require (documentLoader rs) (New "documentLoader is nil");;;
  fetched <-- GetClaimByID E iss issuer id;;
  store fetched;;;
  credential <-- require fetched (New "GetClaimByID returned nil credential");;
  reject_if (String.eqb (verifiable.Issuer credential) "") (New "credential issuer is empty");;;
  reject_if (String.eqb (verifiable.ID credential) "") (New "credential ID is empty");;;
  require (verifiable.Type_ credential) (New "credential type is nil");;;
  require (verifiable.Expiration credential) (New "credential expiration is nil");;;
  subject <-- require (verifiable.CredentialSubject credential) (New "credential subject is nil");;
  evs <-- history;;
  check (isUpdatable (Some credential) (time_Now E evs))
    (wrapf ErrCredentialNotUpdatable ("credential '" +:+ verifiable.ID credential +:+ "': "));;;
  check (checkOwnerShip (Some credential) owner)
    (wrapf ErrCredentialNotUpdatable ("credential '" +:+ verifiable.ID credential +:+ "': "));;;
  let credentialBytes := marshal_credential E credential in
  typeValue <-- require (subject !! "type") (New "type field missing in credentialSubject");;
  subjectType <--
    match typeValue with
    | JNull => fail (New "type field is nil in credentialSubject")
    | JStr subjectType =>
        if String.eqb subjectType ""
        then fail (New "invalid or missing type in credentialSubject")
        else ret subjectType
    | _ => fail (New "invalid or missing type in credentialSubject")
    end;;
  credentialType <-- lift (TypeIDFromContext E (documentLoader rs) credentialBytes subjectType);;
  flexibleHTTP <--
    lift (on_error (wrapf ErrCredentialNotUpdatable
                      ("for credential '" +:+ verifiable.ID credential +:+ "' no provider: "))
            (flexiblehttp.ProduceFlexibleHTTP (providers rs) credentialType));;
  provided <-- lift (flexiblehttp.Provide flexibleHTTP subject);;
  let updatedFields := match provided with Some fields => fields | None => ∅ end in
  let timeExpiration :=
    if flexiblehttp.TimeExpiration flexibleHTTP =? 0 then 5 * Minute
    else flexiblehttp.TimeExpiration flexibleHTTP in
  check_index_slots E rs subject updatedFields;;;
  credential <-- deref;;
  merged <-- merge_into E (verifiable.CredentialSubject credential) updatedFields;;
  store (Some (verifiable.set_CredentialSubject merged credential));;;
  credential <-- deref;;
  revNonce <--
    match extractRevocationNonce (Some credential) with
    | (_, Some err) => fail err
    | (revNonce, None) => ret revNonce
    end;;
  reject_if (String.eqb (verifiable.SchemaID (verifiable.Schema credential)) "")
    (New "credential schema ID is empty");;;
  evs <-- history;;
  let credReq :=
    {| request.CredentialSchema := verifiable.SchemaID (verifiable.Schema credential);
       request.Type_ := subjectType;
       request.CredentialSubject := verifiable.CredentialSubject credential;
       request.Expiration := Unix (time_Now E evs + timeExpiration);
       request.RefreshService := verifiable.RefreshService credential;
       request.RevNonce := Some revNonce;
       request.DisplayMethod := verifiable.DisplayMethod credential |} in
  refreshedID <-- CreateCredential E iss issuer credReq;;
  GetClaimByID E iss issuer refreshedID.

(** [Process]: the body under the deferred [recover].  The results are not
    named, so a recovered panic leaves both at their zero value. *)
Definition Process (E : Oracles) (rs : RefreshService) (issuer owner id : string) (s : state)
  : (option W3CCredential * option error) * state :=
  match Process_body E rs issuer owner id s with
  | (Done credential, s') => ((credential, None), s')
  | (Failed err, s') => ((None, Some err), s')
  | (Panicked _, s') => ((None, None), s')
  end.

(** ** Reasoning about runs *)

(** From a state satisfying [P], the computation ends in a state satisfying
    [Q] with its value when it returns normally, in one satisfying [F] when
    it returns an error, and in one satisfying [X] when it panics. *)
Definition spec {A : Type} (P : state -> Prop) (m : M A)
    (Q : A -> state -> Prop) (F X : state -> Prop) : Prop :=
  forall s, P s ->
    match m s with
    | (Done a, s') => Q a s'
    | (Failed _, s') => F s'
    | (Panicked _, s') => X s'
    end.

(** A computation that leaves the state alone. *)
Definition stateless {A : Type} (m : M A) : Prop := forall s, (m s).2 = s.

(** Events before the index-impact check has answered: fetches and GET
    requests. *)
Definition quiet_event (ev : event) : Prop :=
  match ev with
  | EvGetClaimByID _ _ => True
  | EvDo req => http.Method req = "GET"
  | _ => False
  end.

Definition quiet (evs : list event) : Prop := Forall quiet_event evs.

(** Where a run of [Process] can stand: before the verdict of the
    index-impact check; stopped by a verdict other than Updated; between
    the verdict Updated and the call of [CreateCredential]; from that call
    on. *)
Definition before_verdict (s : state) : Prop := quiet (events s).

Definition rejected (s : state) : Prop :=
  exists pre err, events s = pre ++ [EvIndexCheck (Some err)] /\ quiet pre.

Definition impact_confirmed (s : state) : Prop :=
  exists pre, events s = pre ++ [EvIndexCheck None] /\ quiet pre.

Definition no_verdict (evs : list event) : Prop :=
  Forall (fun ev => match ev with EvIndexCheck _ => False | _ => True end) evs.

Definition reissuing (s : state) : Prop :=
  exists pre issuerDID req post,
    events s = pre ++ EvIndexCheck None :: EvCreateCredential issuerDID req :: post
    /\ quiet pre /\ no_verdict post.

Definition stopped (s : state) : Prop :=
  before_verdict s \/ rejected s \/ impact_confirmed s \/ reissuing s.

Definition faulted (s : state) : Prop :=
  before_verdict s \/ impact_confirmed s \/ reissuing s.

(** The credential behind the pointer is [c0] but for its subject map,
    and for a nil context list that became the empty list. *)
Definition changed_within_frame (c0 c1 : W3CCredential) : Prop :=
  c1 = verifiable.set_CredentialSubject (verifiable.CredentialSubject c1)
         (verifiable.set_Context (verifiable.Context c1) c0)
  /\ (verifiable.Context c1 = verifiable.Context c0
      \/ (verifiable.Context c0 = None /\ verifiable.Context c1 = Some [])).

(** [c0] is the credential the first fetch of the run returns. *)
Definition fetched_as (E : Oracles) (rs : RefreshService) (issuer id : string)
    (c0 : W3CCredential) : Prop :=
  exists iss s0,
    issuerService rs = Some iss
    /\ GetClaimByID E iss issuer id init = (Done (Some c0), s0).

(** The cell holds the fetched credential [c0], changed within the frame. *)
Definition within_frame (E : Oracles) (rs : RefreshService) (issuer id : string)
    (c0 : W3CCredential) (s : state) : Prop :=
  fetched_as E rs issuer id c0
  /\ exists c, cell s = Some c /\ changed_within_frame c0 c.

(** Whatever the cell holds is the fetched credential, changed within the
    frame. *)
Definition frame_kept (E : Oracles) (rs : RefreshService) (issuer id : string)
    (s : state) : Prop :=
  forall c1, cell s = Some c1 ->
    exists c0, fetched_as E rs issuer id c0 /\ changed_within_frame c0 c1.

(** Everything [Process] checks, in order, before it calls
    [CreateCredential]. *)
Definition reissue_ready (E : Oracles) (rs : RefreshService) (issuer owner id : string)
  : Prop :=
  exists iss c0 s0 subject subjectType credentialType flexibleHTTP provided c1 revNonce,
    let updatedFields := match provided with Some fields => fields | None => ∅ end in
    issuerService rs = Some iss
    /\ is_Some (documentLoader rs)
    /\ GetClaimByID E iss issuer id init = (Done (Some c0), s0)
    /\ verifiable.Issuer c0 <> ""
    /\ verifiable.ID c0 <> ""
    /\ is_Some (verifiable.Type_ c0)
    /\ is_Some (verifiable.Expiration c0)
    /\ verifiable.CredentialSubject c0 = Some subject
    /\ isUpdatable (Some c0) (time_Now E (events s0)) = None
    /\ checkOwnerShip (Some c0) owner = None
    /\ subject !! "type" = Some (JStr subjectType)
    /\ subjectType <> ""
    /\ TypeIDFromContext E (documentLoader rs) (marshal_credential E c0) subjectType
       = Ok credentialType
    /\ flexiblehttp.ProduceFlexibleHTTP (providers rs) credentialType = Ok flexibleHTTP
    /\ flexiblehttp.Provide flexibleHTTP subject = Ok provided
    /\ isUpdatedIndexSlots E rs (Some c0) subject updatedFields = (Some c1, Done tt)
    /\ extractRevocationNonce
         (Some (verifiable.set_CredentialSubject
                  (Some (merge_subject E subject updatedFields)) c1))
       = (revNonce, None)
    /\ verifiable.SchemaID (verifiable.Schema c0) <> "".

(** ** The properties the specification states *)

(** Eligibility: the [id] entry of the subject, if there is one. *)
Definition subject_id (c : W3CCredential) : option value :=
  match verifiable.CredentialSubject c with
  | Some subject => subject !! "id"
  | None => None
  end.

(** The [id] entry is missing, null, not a string, or blank once trimmed. *)
Definition id_unusable (c : W3CCredential) : Prop :=
  match subject_id c with
  | Some (JStr s) => TrimSpace s = ""
  | _ => True
  end.

(** [isUpdatable] fails exactly when the expiration is strictly after the
    current time or the id is unusable. *)
Definition eligibility_claim (c : W3CCredential) (now : Z) : Prop :=
  is_Some (isUpdatable (Some c) now)
  <-> (exists t, verifiable.Expiration c = Some t /\ now < t) \/ id_unusable c.

(** The merged subject has the id of the original subject. *)
Definition merge_keeps_id (E : Oracles) (subject updatedFields : gmap string value) : Prop :=
  merge_subject E subject updatedFields !! "id" = subject !! "id".

(** The order of a [range] over a map is some order of its entries. *)
Definition range_is_permutation (E : Oracles) (m : gmap string value) : Prop :=
  range_order E m ≡ₚ map_to_list m.

(** Context aggregation, in the words of the specification: what a URI
    resolves to, if it does, and the entries it contributes.  The empty
    string is not looked up. *)
Definition resolved_context (dl : ld.DocumentLoader) (uri : string) : option value :=
  if String.eqb uri "" then None
  else
    match dl uri with
    | Ok (Some doc) =>
        match ld.Document doc with
        | JObj m => m !! "@context"
        | _ => None
        end
    | _ => None
    end.

Definition flatten_entry (v : value) : list value :=
  match v with
  | JArr l => l
  | _ => [v]
  end.

Definition aggregate (dl : ld.DocumentLoader) (uris : list string) : list value :=
  flat_map (fun uri => match resolved_context dl uri with
                       | Some v => flatten_entry v
                       | None => []
                       end) uris.

(** Every field of [c1] other than the subject map is as in [c0]. *)
Definition only_subject_changed (c0 c1 : W3CCredential) : Prop :=
  c1 = verifiable.set_CredentialSubject (verifiable.CredentialSubject c1) c0.

(** Index-impact analysis.  The claim of the credential parses and sits
    at [position]. *)
Definition parses_at (E : Oracles) (rs : RefreshService) (c : W3CCredential)
    (position : core.MerklizedRootPosition) : Prop :=
  exists claim, ParseClaim E (documentLoader rs) c = Ok claim
                /\ GetMerklizedPosition E claim = Ok position.

Definition reserved (k : string) : Prop := k = "id" \/ k = "type".

(** Field [k] resolves to slot [i]: the lookup of the field under the type
    of the old subject, in the aggregated contexts of the credential,
    answers [i]. *)
Definition resolves_to (E : Oracles) (rs : RefreshService) (c : W3CCredential)
    (oldValues : gmap string value) (k : string) (i : Z) : Prop :=
  exists typeStr credentialBytes,
    oldValues !! "type" = Some (JStr typeStr)
    /\ loadContexts E rs (verifiable.Context (ensure_Context c)) = Ok credentialBytes
    /\ GetFieldSlotIndex E k typeStr credentialBytes = Ok i.

Definition all_fields_resolve (E : Oracles) (rs : RefreshService) (c : W3CCredential)
    (oldValues : gmap string value) : Prop :=
  forall k v, oldValues !! k = Some v -> ~ reserved k ->
              exists i, resolves_to E rs c oldValues k i.

(** A field of the old subject, not reserved, present in the new values,
    resolving to slot 2 or 3, whose old value differs from the new one. *)
Definition index_field_changed (E : Oracles) (rs : RefreshService) (c : W3CCredential)
    (oldValues newValues : gmap string value) (k : string) : Prop :=
  exists v v' i,
    oldValues !! k = Some v /\ ~ reserved k /\ newValues !! k = Some v'
    /\ resolves_to E rs c oldValues k i /\ (i = 2 \/ i = 3)
    /\ iface_neq v v' = Some true.

(** With position None and every field resolving: Updated when some index
    field changed, [errIndexSlotsNotUpdated] when none did. *)
Definition index_verdict_claim (E : Oracles) (rs : RefreshService) (c : W3CCredential)
    (oldValues newValues : gmap string value) : Prop :=
  parses_at E rs c core.MerklizedRootPositionNone ->
  all_fields_resolve E rs c oldValues ->
  ((exists k, index_field_changed E rs c oldValues newValues k) ->
   (isUpdatedIndexSlots E rs (Some c) oldValues newValues).2 = Done tt)
  /\ ((~ exists k, index_field_changed E rs c oldValues newValues k) ->
      (isUpdatedIndexSlots E rs (Some c) oldValues newValues).2
      = Failed errIndexSlotsNotUpdated).

(** No index field holds an array, or an object, both before and after. *)
Definition index_fields_comparable (E : Oracles) (rs : RefreshService) (c : W3CCredential)
    (oldValues newValues : gmap string value) : Prop :=
  forall k v v' i,
    oldValues !! k = Some v -> ~ reserved k -> newValues !! k = Some v' ->
    resolves_to E rs c oldValues k i -> i = 2 \/ i = 3 ->
    is_Some (iface_neq v v').

(** ** Fixtures *)

Definition demo_status : value := JObj {[ "revocationNonce" := JNum (5 # 1) ]}.

Definition demo_credential (id : string) (ctx : option (list string)) (expiration : option Z)
    (subject : gmap string value) (status : value) : W3CCredential :=
  {| verifiable.ID := id;
     verifiable.Context := ctx;
     verifiable.Type_ := Some ["VerifiableCredential"; "ExampleCredential"];
     verifiable.Expiration := expiration;
     verifiable.CredentialSubject := Some subject;
     verifiable.CredentialStatus := status;
     verifiable.Issuer := "did:example:issuer";
     verifiable.Schema := {| verifiable.SchemaID := "https://example.org/schema.json";
                             verifiable.SchemaType := "JsonSchema2023" |};
     verifiable.RefreshService := None;
     verifiable.DisplayMethod := None;
     verifiable.Other := JNull |}.

(** Collaborators that always answer: the claim parses at [position], a
    field resolves as [slot] says, the body of a response names the
    credential it carries and [fetch] decodes it. *)
Definition demo_oracles (position : core.MerklizedRootPosition) (slot : string -> result Z)
    (fetch : string -> result W3CCredential) : Oracles :=
  {| Claim := unit;
     json_Marshal := fun _ => "{}";
     marshal_credential := fun _ => "{}";
     marshal_request := fun _ => Ok "{}";
     unmarshal_vc := fetch;
     decode_id := fun body => body;
     url_error := fun _ => None;
     strconv_Quote := fun s => s;
     ParseClaim := fun _ _ => Ok tt;
     GetMerklizedPosition := fun _ => Ok position;
     GetFieldSlotIndex := fun k _ _ => slot k;
     TypeIDFromContext := fun _ _ subjectType => Ok subjectType;
     range_order := map_to_list;
     time_Now := fun _ => 2000 |}.

(** An issuer node that answers a GET with the URL asked for and a POST
    with the id [issued]. *)
Definition demo_client (issued : string) : http.Client :=
  fun _ req =>
    if String.eqb (http.Method req) "GET"
    then Ok {| http.StatusCode := 200; http.Body := Ok (http.URL req) |}
    else Ok {| http.StatusCode := 201; http.Body := Ok issued |}.

Definition demo_issuer : IssuerService :=
  {| supportedIssuers := {[ "*" := "https://issuer.example" ]};
     issuerBasicAuth := Some {[ "*" := "user:secret" ]};
     client := demo_client "cred-2" |}.

Definition demo_loader : ld.DocumentLoader :=
  fun uri =>
    if String.eqb uri "https://example.org/a.jsonld"
    then Ok (Some {| ld.DocumentURL := uri;
                     ld.Document := JObj {[ "@context" := JArr [JStr "x"; JStr "y"] ]};
                     ld.ContextURL := "" |})
    else Err (New "loading document failed").

Definition demo_service (loader : option ld.DocumentLoader)
    (updated : option (gmap string value)) : RefreshService :=
  {| issuerService := Some demo_issuer;
     documentLoader := loader;
     providers :=
       {| flexiblehttp.ProduceFlexibleHTTP := fun _ =>
            Ok {| flexiblehttp.Provide := fun _ => Ok updated;
                  flexiblehttp.TimeExpiration := 0 |} |} |}.

(** A subject owned by [did:example:owner] with one more field, and the
    credential [cred-1] around it, expired and without context list. *)
Definition demo_subject (field : string) (v : value) : gmap string value :=
  {[ "id" := JStr "did:example:owner"; "type" := JStr "ExampleCredential"; field := v ]}.

Definition demo_expired (field : string) (v : value) : W3CCredential :=
  demo_credential "cred-1" None (Some 1000) (demo_subject field v) demo_status.

(** Decoding a response: the body names the credential. *)
Definition demo_fetch (original refreshed : W3CCredential) (body : string)
  : result W3CCredential :=
  Ok (if Contains body "cred-2" then refreshed else original).

(** The world in which [cred-1] is [demo_expired field v], every field
    sits in slot 2 under position None, and the provider answers with
    [field := v']. *)
Definition demo_world (field : string) (v : value) : Oracles :=
  demo_oracles core.MerklizedRootPositionNone (fun _ => Ok 2)
    (demo_fetch (demo_expired field v)
       (demo_credential "cred-2" None (Some 302000) (demo_subject field v) demo_status)).

Definition demo_refresh (field : string) (v v' : value)
  : (option W3CCredential * option error) * state :=
  Process (demo_world field v) (demo_service (Some demo_loader) (Some {[ field := v' ]}))
    "did:example:issuer" "did:example:owner" "cred-1" init.

(** ** Vocabulary for the properties of the remaining code *)

(** The byte [c] occurs in [s]. *)
Fixpoint has_byte (c : ascii) (s : string) : bool :=
  match s with
  | EmptyString => false
  | String c' s' => Ascii.eqb c' c || has_byte c s'
  end.

(** The basic-auth entry [setBasicAuth] uses for an issuer: the issuer's
    own, else the one under the wildcard, none when the map is nil. *)
Definition basic_auth_entry (iss : IssuerService) (issuerDID : string) : option string :=
  match issuerBasicAuth iss with
  | None => None
  | Some auth =>
      match auth !! issuerDID with
      | Some namepass => Some namepass
      | None => auth !! "*"
      end
  end.

(** The request [Process] builds once every stage went through: from the
    credential [c0] as fetched, its subject and subject type, the provider
    with its answer, the revocation nonce and the clock reading [now]. *)
Definition reissue_request (E : Oracles) (c0 : W3CCredential) (subject : gmap string value)
    (subjectType : string) (flexibleHTTP : flexiblehttp.FlexibleHTTP)
    (provided : option (gmap string value)) (revNonce now : Z) : credentialRequest :=
  let updatedFields := match provided with Some fields => fields | None => ∅ end in
  let timeExpiration :=
    if flexiblehttp.TimeExpiration flexibleHTTP =? 0 then 5 * Minute
    else flexiblehttp.TimeExpiration flexibleHTTP in
  {| request.CredentialSchema := verifiable.SchemaID (verifiable.Schema c0);
     request.Type_ := subjectType;
     request.CredentialSubject := Some (merge_subject E subject updatedFields);
     request.Expiration := Unix (now + timeExpiration);
     request.RefreshService := verifiable.RefreshService c0;
     request.RevNonce := Some revNonce;
     request.DisplayMethod := verifiable.DisplayMethod c0 |}.


(** The request of the run of [demo_refresh] in which the provider moves
    the birthday by a day. *)
Definition demo_request : credentialRequest :=
  {| request.CredentialSchema := "https://example.org/schema.json";
     request.Type_ := "ExampleCredential";
     request.CredentialSubject := Some (demo_subject "birthday" (JNum (19960425 # 1)));
     request.Expiration := 300;
     request.RefreshService := None;
     request.RevNonce := Some 5;
     request.DisplayMethod := None |}.

Example TrimSpace_ex1 : TrimSpace "  did:x " = "did:x". Proof. reflexivity. Qed.
Example Contains_ex1 : Contains "field `a` not specified in serialization info" "not specified in serialization info" = true. Proof. reflexivity. Qed.
Example Split_ex : SplitN2 ":" "user:pa:ss" = ["user"; "pa:ss"]. Proof. reflexivity. Qed.
Example Split_ex2 : SplitN2 ":" "userpass" = ["userpass"]. Proof. reflexivity. Qed.
Example u64_ex : uint64_of_float64 (-1 # 1) = 2^64 - 1. Proof. reflexivity. Qed.
Example u64_ex2 : uint64_of_float64 (5 # 2) = 2. Proof. reflexivity. Qed.

(** * Eligibility *)

(** C7, as stated, fails on a credential that carries no expiration: the
    check rejects it although no expiration lies in the future and its
    subject id is a non-blank string. *)
Lemma eligibility_claim_fails_without_expiration :
  ~ eligibility_claim
      (demo_credential "cred-1" None None {[ "id" := JStr "did:example:owner" ]} demo_status)
      2000.
Proof.
  unfold eligibility_claim. intros [Hfail _].
  destruct Hfail as [[t [[=] _]]|Hid]; [by eexists|].
  vm_compute in Hid. discriminate.
Qed.

(** C7 (amended): [isUpdatable] fails exactly when the expiration is absent
    or strictly after the current time, or when the subject's id entry is
    missing, null, not a string, or blank after trimming white space; it
    succeeds exactly when the credential has expired (its expiration is not
    after the current time) and its subject id is a non-blank string. *)
Theorem isUpdatable_characterised (c : W3CCredential) (now : Z) :
  (is_Some (isUpdatable (Some c) now)
   <-> verifiable.Expiration c = None
       \/ (exists t, verifiable.Expiration c = Some t /\ now < t)
       \/ id_unusable c)
  /\ (isUpdatable (Some c) now = None
      <-> (exists t, verifiable.Expiration c = Some t /\ t <= now) /\ ~ id_unusable c).
Proof.
  unfold isUpdatable, id_unusable, subject_id.
  destruct (verifiable.Expiration c) as [t|].
  2:{ split; split.
      - intros _. by left.
      - intros _. by eexists.
      - intros [=].
      - intros [[t [[=] _]] _]. }
  destruct (Z.ltb_spec now t) as [Hlt|Hge].
  { split; split.
    - intros _. right; left. by exists t.
    - intros _. by eexists.
    - intros [=].
    - intros [[t' [[= <-] ?]] _]. lia. }
  assert (Hpast : exists t', Some t = Some t' /\ t' <= now) by (by exists t).
  assert (Hfuture : ~ exists t', Some t = Some t' /\ now < t').
  { intros [t' [[= <-] ?]]. lia. }
  assert (Hrejected : forall e : error,
            (is_Some (Some e) <-> Some t = None \/ (exists t', Some t = Some t' /\ now < t') \/ True)
            /\ (Some e = None <-> (exists t', Some t = Some t' /\ t' <= now) /\ ~ True)).
  { intros e. split; split.
    - tauto.
    - intros _. by eexists.
    - intros [=].
    - tauto. }
  destruct (verifiable.CredentialSubject c) as [subject|]; [|apply Hrejected].
  destruct (subject !! "id") as [[ | | |s| | ]|]; try apply Hrejected.
  destruct (String.eqb_spec (TrimSpace s) "") as [Hblank|Hfull].
  - split; split.
    + tauto.
    + intros _. by eexists.
    + intros [=].
    + tauto.
  - split; split.
    + by intros [? [=]].
    + intros [[=]|[?|?]]; done.
    + done.
    + done.
Qed.

(** * Revocation nonce *)

Ltac bounds_64 :=
  change (2 ^ 63) with 9223372036854775808 in *;
  change (2 ^ 64) with 18446744073709551616 in *.

Ltac split_conversion :=
  unfold uint64_of_float64; cbv zeta; repeat case_match;
  rewrite ?andb_true_iff, ?andb_false_iff, ?Z.leb_le, ?Z.ltb_lt, ?Z.leb_gt, ?Z.ltb_ge in *;
  bounds_64.

Lemma uint64_of_float64_range (n : Q) : 0 <= uint64_of_float64 n < 2 ^ 64.
Proof. split_conversion; [apply Z.mod_pos_bound|..]; lia. Qed.

Lemma uint64_of_float64_wraps (n : Q) :
  - 2 ^ 63 <= truncate n < 2 ^ 64 -> uint64_of_float64 n = truncate n mod 2 ^ 64.
Proof.
  intros Hrange. split_conversion; [done|symmetry; apply Z.mod_small|]; lia.
Qed.

(** C10: when the status map holds a number under [revocationNonce],
    whatever the number, [extractRevocationNonce] reports no error and
    returns its conversion to [uint64]: a value between 0 and 2^64 that,
    when the integer part of the number lies between -2^63 and 2^64, is this
    integer part (the fraction dropped) modulo 2^64, so that a negative
    number wraps around. *)
Theorem extractRevocationNonce_unchecked
    (c : W3CCredential) (status : gmap string value) (n : Q) :
  verifiable.CredentialStatus c = JObj status ->
  status !! "revocationNonce" = Some (JNum n) ->
  extractRevocationNonce (Some c) = (uint64_of_float64 n, None)
  /\ 0 <= uint64_of_float64 n < 2 ^ 64
  /\ (- 2 ^ 63 <= truncate n < 2 ^ 64 -> uint64_of_float64 n = truncate n mod 2 ^ 64).
Proof.
  intros Hstatus Hnonce. unfold extractRevocationNonce. rewrite Hstatus, Hnonce.
  split; [done|]. split; [apply uint64_of_float64_range|apply uint64_of_float64_wraps].
Qed.

Lemma extractRevocationNonce_unchecked_witness :
  extractRevocationNonce
    (Some (demo_credential "cred-1" None (Some 1000) ∅
             (JObj {[ "revocationNonce" := JNum (-5 # 2) ]})))
  = (2 ^ 64 - 2, None).
Proof.
  pose proof (extractRevocationNonce_unchecked
                (demo_credential "cred-1" None (Some 1000) ∅
                   (JObj {[ "revocationNonce" := JNum (-5 # 2) ]}))
                {[ "revocationNonce" := JNum (-5 # 2) ]} (-5 # 2)
                eq_refl eq_refl) as [Hres _].
  exact Hres.
Defined.

(** * The subject merge *)

Section Merge.

Implicit Types (m subject updatedFields : gmap string value).
Implicit Types (entries : list (string * value)).

(** Writing a list of entries with distinct keys into a map. *)
Lemma lookup_foldl_insert entries m k :
  NoDup entries.*1 ->
  foldl (fun m kv => <[kv.1 := kv.2]> m) m entries !! k
  = match (list_to_map entries : gmap string value) !! k with
    | Some v => Some v
    | None => m !! k
    end.
Proof.
  revert m. induction entries as [|[k0 v0] entries IH]; intros m Hnodup; simpl.
  { by rewrite lookup_empty. }
  apply NoDup_cons in Hnodup as [Hfresh Hnodup].
  rewrite IH by done. destruct (decide (k0 = k)) as [->|Hne].
  - rewrite !lookup_insert_eq.
    by rewrite (not_elem_of_list_to_map_1 _ _ Hfresh).
  - by rewrite !lookup_insert_ne.
Qed.

Variable E : Oracles.

(** Whatever the order of the loop, the merge is the overlay of the
    provider's fields on the subject. *)
Lemma merge_subject_union subject updatedFields :
  range_is_permutation E updatedFields ->
  merge_subject E subject updatedFields = updatedFields ∪ subject.
Proof.
  intros Hperm. apply map_eq. intros k. unfold merge_subject.
  assert (Hnodup : NoDup (range_order E updatedFields).*1).
  { rewrite Hperm. apply NoDup_fst_map_to_list. }
  rewrite lookup_foldl_insert by done.
  rewrite (list_to_map_proper _ _ Hnodup Hperm), list_to_map_to_list.
  rewrite lookup_union. by destruct (updatedFields !! k), (subject !! k).
Qed.

End Merge.

(** C2, as stated, fails when the provider returns the key [id]: the merge
    writes the provider's value over the owner identifier, and the request
    that [Process] then hands to [CreateCredential], the fourth event of
    the run, carries the new identifier. *)
Lemma merge_overwrites_id :
  let E := demo_world "birthday" (JNum (19960424 # 1)) in
  let subject := demo_subject "birthday" (JNum (19960424 # 1)) in
  let updatedFields : gmap string value :=
    {[ "birthday" := JNum (19960425 # 1); "id" := JStr "did:example:other" ]} in
  let run := Process E (demo_service (Some demo_loader) (Some updatedFields))
               "did:example:issuer" "did:example:owner" "cred-1" init in
  range_is_permutation E updatedFields
  /\ subject !! "id" = Some (JStr "did:example:owner")
  /\ merge_subject E subject updatedFields !! "id" = Some (JStr "did:example:other")
  /\ ~ merge_keeps_id E subject updatedFields
  /\ match events run.2 !! 3%nat with
     | Some (EvCreateCredential _ credReq) =>
         match request.CredentialSubject credReq with
         | Some sent => sent !! "id"
         | None => None
         end
     | _ => None
     end = Some (JStr "did:example:other").
Proof.
  intros E subject updatedFields run.
  split; [unfold range_is_permutation; reflexivity|].
  split; [vm_compute; reflexivity|].
  split; [vm_compute; reflexivity|].
  split; [unfold merge_keeps_id; vm_compute; discriminate|].
  vm_compute. reflexivity.
Qed.

(** C2 (amended): for every subject and every map of updated fields, the
    merge step of [Process] leaves the value under [id] as it was whenever
    the provider's map has no key [id]; when the provider's map has the key,
    the merged subject carries the provider's value. *)
Theorem merge_id_overlay (E : Oracles) (subject updatedFields : gmap string value) :
  range_is_permutation E updatedFields ->
  (updatedFields !! "id" = None -> merge_keeps_id E subject updatedFields)
  /\ (forall v, updatedFields !! "id" = Some v ->
                merge_subject E subject updatedFields !! "id" = Some v).
Proof.
  intros Hperm. unfold merge_keeps_id. rewrite merge_subject_union by done.
  split.
  - intros Habsent. by rewrite lookup_union_r.
  - intros v Hpresent. by apply lookup_union_Some_l.
Qed.

Lemma merge_id_overlay_witness :
  let E := demo_oracles core.MerklizedRootPositionNone (fun _ => Ok 2)
             (fun _ => Err (New "no body")) in
  merge_keeps_id E {[ "id" := JStr "did:example:owner"; "birthday" := JNum (19960424 # 1) ]}
    {[ "birthday" := JNum (19960425 # 1) ]}.
Proof.
  intros E.
  refine (proj1 (merge_id_overlay E _ {[ "birthday" := JNum (19960425 # 1) ]} _) _).
  - unfold range_is_permutation. reflexivity.
  - vm_compute. reflexivity.
Defined.

(** * Index-impact analysis: merklized credentials *)

(** C3: when the claim of a credential parses with merklized root position
    Index, [isUpdatedIndexSlots] returns the nil error (Updated) for every
    pair of old and new subjects, an empty difference included; when the
    position is Value, it returns [errIndexSlotsNotUpdated] for every pair. *)
Theorem isUpdatedIndexSlots_merklized
    (E : Oracles) (rs : RefreshService) (c : W3CCredential) (claim : Claim E)
    (oldValues newValues : gmap string value) :
  ParseClaim E (documentLoader rs) c = Ok claim ->
  (GetMerklizedPosition E claim = Ok core.MerklizedRootPositionIndex ->
   isUpdatedIndexSlots E rs (Some c) oldValues newValues = (Some c, Done tt))
  /\ (GetMerklizedPosition E claim = Ok core.MerklizedRootPositionValue ->
      isUpdatedIndexSlots E rs (Some c) oldValues newValues
      = (Some c, Failed errIndexSlotsNotUpdated)).
Proof.
  intros Hparse. unfold isUpdatedIndexSlots. rewrite Hparse.
  split; intros ->; reflexivity.
Qed.

Lemma isUpdatedIndexSlots_merklized_witness :
  let c := demo_credential "cred-1" None (Some 1000) {[ "id" := JStr "did:example:owner" ]}
             demo_status in
  isUpdatedIndexSlots
    (demo_oracles core.MerklizedRootPositionIndex (fun _ => Ok 0) (fun _ => Err (New "no body")))
    (demo_service (Some demo_loader) None) (Some c) ∅ ∅
  = (Some c, Done tt).
Proof.
  intros c.
  exact (proj1 (isUpdatedIndexSlots_merklized
                  (demo_oracles core.MerklizedRootPositionIndex (fun _ => Ok 0)
                     (fun _ => Err (New "no body")))
                  (demo_service (Some demo_loader) None) c tt ∅ ∅ eq_refl) eq_refl).
Defined.

(** * Context aggregation *)

Section Aggregation.

Variable dl : ld.DocumentLoader.

(** One turn of the loop appends what the URI contributes. *)
Lemma loadContexts_step_entries acc context :
  loadContexts_step dl acc context = acc ++ aggregate dl [context].
Proof.
  unfold loadContexts_step, aggregate, resolved_context. simpl.
  destruct (String.eqb context ""); [by rewrite !app_nil_r|].
  destruct (dl context) as [[doc|]|]; [|by rewrite !app_nil_r..].
  destruct (ld.Document doc) as [ | | | | |m]; try by rewrite !app_nil_r.
  destruct (m !! "@context") as [[ | | | |l| ]|]; simpl; by rewrite ?app_nil_r.
Qed.

Lemma loadContexts_loop acc contexts :
  foldl (loadContexts_step dl) acc contexts = acc ++ aggregate dl contexts.
Proof.
  revert acc. induction contexts as [|context contexts IH]; intros acc; simpl.
  { by rewrite app_nil_r. }
  rewrite IH, loadContexts_step_entries. unfold aggregate. simpl.
  by rewrite app_nil_r, app_assoc.
Qed.

End Aggregation.



(** * Index-impact analysis: per-field commitment *)

Section PerField.

Variables (E : Oracles) (rs : RefreshService) (c : W3CCredential).
Variables (oldValues newValues : gmap string value).

Lemma not_reserved_eqb k :
  ~ reserved k -> String.eqb k "type" || String.eqb k "id" = false.
Proof.
  unfold reserved. intros Hk.
  destruct (String.eqb_spec k "type"), (String.eqb_spec k "id"); tauto.
Qed.

Lemma reserved_eqb k :
  reserved k -> String.eqb k "type" || String.eqb k "id" = true.
Proof.
  intros [->| ->]; reflexivity.
Qed.

Lemma reserved_dec k : {reserved k} + {~ reserved k}.
Proof.
  unfold reserved. destruct (decide (k = "id")), (decide (k = "type")); tauto.
Qed.

(** Entries on which the body falls through do not count. *)
Lemma range_fields_skip body (before rest : list (string * value)) :
  Forall (fun kv => body kv = None) before ->
  range_fields body (before ++ rest) = range_fields body rest.
Proof.
  induction 1 as [|kv before Hkv _ IH]; simpl; [done|]. by rewrite Hkv.
Qed.

(** Under position None the function is the loop over the old subject. *)
Lemma isUpdatedIndexSlots_per_field claim credentialBytes :
  ParseClaim E (documentLoader rs) c = Ok claim ->
  GetMerklizedPosition E claim = Ok core.MerklizedRootPositionNone ->
  loadContexts E rs (verifiable.Context (ensure_Context c)) = Ok credentialBytes ->
  isUpdatedIndexSlots E rs (Some c) oldValues newValues
  = (Some (ensure_Context c),
     match range_fields (field_step E credentialBytes oldValues newValues)
             (range_order E oldValues) with
     | Some r => r
     | None => Failed errIndexSlotsNotUpdated
     end).
Proof.
  intros Hparse Hposition Hload. unfold isUpdatedIndexSlots.
  rewrite Hparse, Hposition. cbv zeta. rewrite Hload.
  by destruct (range_fields _ _).
Qed.

(** What the body does on an entry of the old subject, when every field
    resolves and index fields can be compared. *)
Lemma field_step_verdict credentialBytes k v :
  loadContexts E rs (verifiable.Context (ensure_Context c)) = Ok credentialBytes ->
  all_fields_resolve E rs c oldValues ->
  index_fields_comparable E rs c oldValues newValues ->
  oldValues !! k = Some v ->
  (field_step E credentialBytes oldValues newValues (k, v) = Some (Done tt)
   /\ index_field_changed E rs c oldValues newValues k)
  \/ (field_step E credentialBytes oldValues newValues (k, v) = None
      /\ ~ index_field_changed E rs c oldValues newValues k).
Proof.
  intros Hload Hresolve Hcomparable Hold. unfold field_step.
  destruct (reserved_dec k) as [Hres|Hfree].
  { right. rewrite reserved_eqb by done. split; [done|].
    intros (? & ? & ? & _ & ? & _). done. }
  rewrite not_reserved_eqb by done.
  destruct (Hresolve k v Hold Hfree) as (i & typeStr & bytes & Htype & Hbytes & Hslot).
  assert (bytes = credentialBytes) as -> by congruence.
  assert (Hres : resolves_to E rs c oldValues k i) by (by exists typeStr, credentialBytes).
  assert (Hunique : forall j, resolves_to E rs c oldValues k j -> j = i).
  { intros j (t' & b' & Ht' & Hb' & Hj). congruence. }
  rewrite Htype, Hslot.
  destruct (newValues !! k) as [v'|] eqn:Hnew.
  2:{ right. split; [done|]. intros (? & ? & ? & _ & _ & ? & _). congruence. }
  destruct ((i =? 2) || (i =? 3)) eqn:Hindex.
  2:{ right. split; [done|]. intros (? & ? & j & _ & _ & _ & Hj & Hslots & _).
      apply Hunique in Hj as ->. lia. }
  assert (Hslots : i = 2 \/ i = 3) by lia.
  destruct (Hcomparable k v v' i Hold Hfree Hnew Hres Hslots) as [[|] Hneq]; rewrite Hneq.
  - left. split; [done|]. by exists v, v', i.
  - right. split; [done|]. intros (v1 & v1' & ? & ? & _ & ? & _ & _ & ?). congruence.
Qed.

Lemma range_fields_verdict credentialBytes (entries : list (string * value)) :
  loadContexts E rs (verifiable.Context (ensure_Context c)) = Ok credentialBytes ->
  all_fields_resolve E rs c oldValues ->
  index_fields_comparable E rs c oldValues newValues ->
  (forall k v, (k, v) ∈ entries -> oldValues !! k = Some v) ->
  (range_fields (field_step E credentialBytes oldValues newValues) entries = Some (Done tt)
   /\ exists k v, (k, v) ∈ entries /\ index_field_changed E rs c oldValues newValues k)
  \/ (range_fields (field_step E credentialBytes oldValues newValues) entries = None
      /\ forall k v, (k, v) ∈ entries ->
                     ~ index_field_changed E rs c oldValues newValues k).
Proof.
  intros Hload Hresolve Hcomparable.
  induction entries as [|[k v] entries IH]; intros Hentries; cbn [range_fields].
  { right. split; [done|]. intros k v Hin. by apply elem_of_nil in Hin. }
  destruct (field_step_verdict credentialBytes k v Hload Hresolve Hcomparable)
    as [[-> Hchanged]|[-> Hsame]].
  { apply Hentries. left. }
  { left. split; [done|]. exists k, v. split; [left|done]. }
  destruct IH as [[-> (k' & v' & Hin & Hchanged)]|[-> Hnone]].
  { intros k' v' Hin. apply Hentries. by right. }
  - left. split; [done|]. exists k', v'. split; [by right|done].
  - right. split; [done|]. intros k' v' [[= -> ->]|Hin]%elem_of_cons; eauto.
Qed.

End PerField.

Lemma loadContexts_with_loader (E : Oracles) (rs : RefreshService) contexts :
  is_Some (documentLoader rs) -> exists credentialBytes, loadContexts E rs contexts = Ok credentialBytes.
Proof.
  intros [dl Hdl]. unfold loadContexts. rewrite Hdl.
  destruct contexts as [[|? ?]|]; eauto.
Qed.

(** C4, as stated, fails in two ways.  For a service without document
    loader, on an old subject with no field besides [id] and [type], no
    field changed, yet the analysis does not answer
    [errIndexSlotsNotUpdated]: it reports that the contexts could not be
    loaded.  And for a service with a loader, when the one field of the
    subject holds an array before and after and resolves to slot 2, no
    comparison finds a difference, yet the analysis does not answer
    [errIndexSlotsNotUpdated] either: it panics. *)
Lemma index_verdict_claim_fails :
  let E := demo_oracles core.MerklizedRootPositionNone (fun _ => Ok 2)
             (fun _ => Err (New "no body")) in
  let plain : gmap string value :=
    {[ "id" := JStr "did:example:owner"; "type" := JStr "ExampleCredential" ]} in
  let tagged := demo_subject "tags" (JArr [JStr "a"]) in
  ((isUpdatedIndexSlots E (demo_service None None)
      (Some (demo_credential "cred-1" None (Some 1000) plain demo_status)) plain ∅).2
   = Failed (New "failed to load contexts: documentLoader is nil in loadContexts")
   /\ ~ index_verdict_claim E (demo_service None None)
         (demo_credential "cred-1" None (Some 1000) plain demo_status) plain ∅)
  /\ ((isUpdatedIndexSlots E (demo_service (Some demo_loader) None)
         (Some (demo_expired "tags" (JArr [JStr "a"]))) tagged
         {[ "tags" := JArr [JStr "b"] ]}).2
      = Panicked uncomparable
      /\ ~ index_verdict_claim E (demo_service (Some demo_loader) None)
            (demo_expired "tags" (JArr [JStr "a"])) tagged {[ "tags" := JArr [JStr "b"] ]}).
Proof.
  intros E plain tagged. split; (split; [vm_compute; reflexivity|]).
  - assert (Hreserved : forall k v, plain !! k = Some v -> reserved k).
    { intros k v [[<- _]|[_ [<- _]%lookup_singleton_Some]]%lookup_insert_Some;
        [by left|by right]. }
    intros Hclaim. destruct Hclaim as [_ Hnone].
    + by exists tt.
    + intros k v Hold Hfree. destruct Hfree. eauto.
    + assert (Hsame : ~ exists k, index_field_changed E (demo_service None None)
                                   (demo_credential "cred-1" None (Some 1000) plain demo_status)
                                   plain ∅ k).
      { intros (k & v & ? & ? & Hold & Hfree & _). destruct Hfree. eauto. }
      specialize (Hnone Hsame). vm_compute in Hnone. discriminate.
  - intros Hclaim. destruct Hclaim as [_ Hnone].
    + by exists tt.
    + intros k v _ _. exists 2, "ExampleCredential", "{}". repeat split; reflexivity.
    + assert (Hsame : ~ exists k, index_field_changed E (demo_service (Some demo_loader) None)
                                   (demo_expired "tags" (JArr [JStr "a"])) tagged
                                   {[ "tags" := JArr [JStr "b"] ]} k).
      { intros (k & v & v' & i & Hold & _ & [<- <-]%lookup_singleton_Some & _ & _ & Hneq).
        vm_compute in Hold. injection Hold as <-. discriminate. }
      specialize (Hnone Hsame). vm_compute in Hnone. discriminate.
Qed.

(** C4 (amended): for a service that has a document loader, and a
    credential with merklized root position None whose non-reserved
    old-subject fields all resolve to a slot index, provided no field that
    resolves to slot 2 or 3 holds an array, or an object, in both the old
    and the new subject: if some non-reserved field present in the new
    values resolves to slot 2 or 3 and its old value differs from the new
    one, [isUpdatedIndexSlots] returns the nil error (Updated), in whatever
    order the fields are visited; if there is no such field, it returns
    [errIndexSlotsNotUpdated]. *)
Theorem index_verdict_when_comparable
    (E : Oracles) (rs : RefreshService) (c : W3CCredential)
    (oldValues newValues : gmap string value) :
  range_is_permutation E oldValues ->
  is_Some (documentLoader rs) ->
  index_fields_comparable E rs c oldValues newValues ->
  index_verdict_claim E rs c oldValues newValues.
Proof.
  intros Hperm Hloader Hcomparable (claim & Hparse & Hposition) Hresolve.
  destruct (loadContexts_with_loader E rs (verifiable.Context (ensure_Context c)) Hloader)
    as [credentialBytes Hload].
  rewrite (isUpdatedIndexSlots_per_field E rs c _ _ claim credentialBytes) by done.
  assert (Hentries : forall k v, (k, v) ∈ range_order E oldValues <-> oldValues !! k = Some v).
  { intros k v. rewrite Hperm. apply elem_of_map_to_list. }
  destruct (range_fields_verdict E rs c oldValues newValues credentialBytes
              (range_order E oldValues) Hload Hresolve Hcomparable)
    as [[-> Hchanged]|[-> Hsame]].
  { intros k v. apply Hentries. }
  - split; [done|]. intros Hnone. destruct Hnone.
    destruct Hchanged as (k & _ & _ & ?). by exists k.
  - split; [|done]. intros (k & Hchanged). exfalso.
    destruct Hchanged as (v & v' & i & Hold & Hrest).
    apply (Hsame k v); [by apply Hentries|]. by exists v, v', i.
Qed.

Lemma index_verdict_when_comparable_witness :
  let E := demo_oracles core.MerklizedRootPositionNone (fun _ => Ok 2)
             (fun _ => Err (New "no body")) in
  let subject : gmap string value :=
    {[ "id" := JStr "did:example:owner"; "type" := JStr "ExampleCredential";
       "birthday" := JNum (19960424 # 1) ]} in
  let c := demo_credential "cred-1" (Some ["https://example.org/a.jsonld"]) (Some 1000)
             subject demo_status in
  (isUpdatedIndexSlots E (demo_service (Some demo_loader) None) (Some c) subject
     {[ "birthday" := JNum (19960425 # 1) ]}).2
  = Done tt.
Proof.
  intros E subject c.
  assert (Hresolves : forall k, resolves_to E (demo_service (Some demo_loader) None) c subject k 2).
  { intros k. exists "ExampleCredential", "{}". repeat split; reflexivity. }
  refine (proj1 (index_verdict_when_comparable E (demo_service (Some demo_loader) None) c subject
                   {[ "birthday" := JNum (19960425 # 1) ]} _ _ _ _ _) _).
  - unfold range_is_permutation. reflexivity.
  - simpl. eauto.
  - intros k v v' i Hold _ [<- <-]%lookup_singleton_Some _ _.
    vm_compute in Hold. injection Hold as <-. vm_compute. eauto.
  - exists tt. split; reflexivity.
  - intros k v _ _. exists 2. apply Hresolves.
  - exists "birthday", (JNum (19960424 # 1)), (JNum (19960425 # 1)), 2.
    split; [vm_compute; reflexivity|]. split; [unfold reserved; intros [|]; discriminate|].
    split; [vm_compute; reflexivity|]. split; [apply Hresolves|].
    split; [by left|vm_compute; reflexivity].
Defined.

(** C5: in the analysis under position None, when the loop reaches a
    field whose slot lookup fails, the function returns at once, whatever
    the fields not yet visited: with the nil error (Updated) if the error
    text contains "not specified in serialization info", with this very
    error otherwise. *)
Theorem isUpdatedIndexSlots_unresolved_field
    (E : Oracles) (rs : RefreshService) (c : W3CCredential) (claim : Claim E)
    (oldValues newValues : gmap string value) (typeStr credentialBytes : string)
    (before after : list (string * value)) (k : string) (v : value) (err : error) :
  ParseClaim E (documentLoader rs) c = Ok claim ->
  GetMerklizedPosition E claim = Ok core.MerklizedRootPositionNone ->
  loadContexts E rs (verifiable.Context (ensure_Context c)) = Ok credentialBytes ->
  oldValues !! "type" = Some (JStr typeStr) ->
  range_order E oldValues = before ++ (k, v) :: after ->
  Forall (fun kv => field_step E credentialBytes oldValues newValues kv = None) before ->
  ~ reserved k ->
  GetFieldSlotIndex E k typeStr credentialBytes = Err err ->
  isUpdatedIndexSlots E rs (Some c) oldValues newValues
  = (Some (ensure_Context c),
     if Contains (Error err) "not specified in serialization info"
     then Done tt else Failed err).
Proof.
  intros Hparse Hposition Hload Htype Horder Hbefore Hfree Hslot.
  rewrite (isUpdatedIndexSlots_per_field E rs c _ _ claim credentialBytes) by done.
  rewrite Horder, range_fields_skip by done.
  cbn [range_fields]. unfold field_step at 1.
  rewrite not_reserved_eqb, Htype, Hslot by done.
  by destruct (Contains _ _).
Qed.

Lemma isUpdatedIndexSlots_unresolved_field_witness :
  let E := demo_oracles core.MerklizedRootPositionNone
             (fun k => if String.eqb k "age" then Ok 0
                       else Err (New ("field `" +:+ k +:+ "` not specified in serialization info")))
             (fun _ => Err (New "no body")) in
  let subject : gmap string value :=
    {[ "age" := JNum (30 # 1); "nickname" := JStr "zed"; "type" := JStr "ExampleCredential" ]} in
  let c := demo_credential "cred-1" (Some []) (Some 1000) subject demo_status in
  isUpdatedIndexSlots E (demo_service (Some demo_loader) None) (Some c) subject ∅
  = (Some c, Done tt).
Proof.
  intros E subject c.
  refine (isUpdatedIndexSlots_unresolved_field E (demo_service (Some demo_loader) None) c tt
            subject ∅ "ExampleCredential" "{}" [("age", JNum (30 # 1))] [("type", JStr "ExampleCredential")]
            "nickname" (JStr "zed") (New "field `nickname` not specified in serialization info")
            eq_refl eq_refl eq_refl _ _ _ _ eq_refl).
  - vm_compute. reflexivity.
  - vm_compute. reflexivity.
  - repeat constructor.
  - unfold reserved. intros [|]; discriminate.
Defined.

(** * Rules for runs *)

Section Rules.

Variables (A B : Type).
Implicit Types (P F X : state -> Prop).

Lemma spec_bind P (m : M A) (k : A -> M B) (Q : A -> state -> Prop)
    (Q' : B -> state -> Prop) F X :
  spec P m Q F X -> (forall a, spec (Q a) (k a) Q' F X) -> spec P (bind m k) Q' F X.
Proof.
  intros Hm Hk s Hs. unfold bind. specialize (Hm s Hs).
  destruct (m s) as [[a|e|msg] s']; [|done..]. by apply Hk.
Qed.

Lemma spec_weaken P P' (m : M A) (Q Q' : A -> state -> Prop) F F' X X' :
  spec P m Q F X ->
  (forall s, P' s -> P s) -> (forall a s, Q a s -> Q' a s) ->
  (forall s, F s -> F' s) -> (forall s, X s -> X' s) ->
  spec P' m Q' F' X'.
Proof.
  intros Hm HP HQ HF HX s Hs. specialize (Hm s (HP s Hs)).
  destruct (m s) as [[a|e|msg] s']; auto.
Qed.

Lemma spec_stateless P (m : M A) F X :
  stateless m -> (forall s, P s -> F s /\ X s) -> spec P m (fun _ s => P s) F X.
Proof.
  intros Hm Habort s Hs. specialize (Hm s). destruct (Habort s Hs).
  destruct (m s) as [[a|e|msg] s']; simpl in Hm; subst; auto.
Qed.

Lemma spec_require P (o : option A) (e : error) F X :
  (forall s, P s -> F s) -> spec P (require o e) (fun a s => P s /\ o = Some a) F X.
Proof. intros HF s Hs. destruct o; simpl; auto. Qed.

(** A fact that does not depend on the state can leave the assertion. *)
Lemma spec_assuming P (fact : Prop) (m : M A) (Q : A -> state -> Prop) F X :
  (fact -> spec P m Q F X) -> spec (fun s => P s /\ fact) m Q F X.
Proof. intros Hm s [Hs Hfact]. by apply Hm. Qed.

End Rules.

Arguments spec_bind {A B P m k Q Q' F X}.
Arguments spec_weaken {A P P' m Q Q' F F' X X'}.
Arguments spec_stateless {A P m F X}.
Arguments spec_require {A P o e F X}.
Arguments spec_assuming {A P fact m Q F X}.

Ltac solve_stateless :=
  let s := fresh "s" in
  intros s;
  unfold require, reject_if, check, lift, history, load, deref, merge_into, ret, fail, panic;
  repeat case_match; reflexivity.

Lemma spec_deref (P F X : state -> Prop) :
  (forall s, P s -> X s) -> spec P deref (fun c s => P s /\ cell s = Some c) F X.
Proof. intros HX s Hs. unfold deref. destruct (cell s) eqn:Hcell; auto. Qed.

(** * The issuer client *)

Lemma setBasicAuth_Method (E : Oracles) (iss : IssuerService) issuerDID req req' :
  setBasicAuth E iss issuerDID req = Ok req' -> http.Method req' = http.Method req.
Proof.
  unfold setBasicAuth. intros Hauth.
  repeat case_match; simplify_eq; reflexivity.
Qed.

Lemma quiet_app (evs more : list event) : quiet evs -> quiet more -> quiet (evs ++ more).
Proof. apply Forall_app_2. Qed.

Section Issuer.

Variables (E : Oracles) (iss : IssuerService).

(** A fetch leaves the credential cell alone, adds only its own call and
    at most one GET request to the events, does not panic, and returns a
    credential whenever it returns without error. *)
Lemma GetClaimByID_run issuerDID claimID s :
  exists more,
    (GetClaimByID E iss issuerDID claimID s).2
    = {| events := events s ++ more; cell := cell s |}
    /\ quiet more
    /\ match (GetClaimByID E iss issuerDID claimID s).1 with
       | Done fetched => is_Some fetched
       | Failed _ => True
       | Panicked _ => False
       end.
Proof.
  unfold GetClaimByID, Do, bind, emit, history, lift, on_error, reject_if, ret, fail, NewRequest.
  simpl.
  destruct (getIssuerURL iss issuerDID) as [issuerNode|e]; simpl;
    [|exists [EvGetClaimByID issuerDID claimID]; repeat split; repeat constructor].
  destruct (url_error E _); simpl;
    [exists [EvGetClaimByID issuerDID claimID]; repeat split; repeat constructor|].
  destruct (setBasicAuth E iss issuerDID _) as [req|e] eqn:Hauth; simpl;
    [|exists [EvGetClaimByID issuerDID claimID]; repeat split; repeat constructor].
  apply setBasicAuth_Method in Hauth. simpl in Hauth.
  assert (Hquiet : quiet [EvGetClaimByID issuerDID claimID; EvDo req]).
  { repeat constructor. exact Hauth. }
  exists [EvGetClaimByID issuerDID claimID; EvDo req].
  rewrite <- app_assoc. simpl.
  destruct (client iss _ req) as [resp|e]; simpl; [|done].
  destruct (negb _); simpl; [done|].
  destruct (http.Body resp) as [rawBody|e]; simpl; [|done].
  destruct (unmarshal_vc E rawBody) as [vc|e]; simpl; [|done].
  repeat split; eauto.
Qed.

(** A reissuance records its call first, then at most one request; it
    leaves the cell alone and does not panic. *)
Lemma CreateCredential_run issuerDID credReq s :
  exists post,
    (CreateCredential E iss issuerDID credReq s).2
    = {| events := events s ++ EvCreateCredential issuerDID credReq :: post; cell := cell s |}
    /\ no_verdict post
    /\ match (CreateCredential E iss issuerDID credReq s).1 with
       | Panicked _ => False
       | _ => True
       end.
Proof.
  unfold CreateCredential, Do, bind, emit, history, lift, on_error, reject_if, ret, fail,
    NewRequest.
  simpl.
  destruct (getIssuerURL iss issuerDID) as [issuerNode|e]; simpl;
    [|by exists []; repeat split; try constructor].
  destruct (marshal_request E credReq) as [body|e]; simpl;
    [|by exists []; repeat split; try constructor].
  destruct (url_error E _); simpl; [by exists []; repeat split; try constructor|].
  destruct (setBasicAuth E iss issuerDID _) as [req|e]; simpl;
    [|by exists []; repeat split; try constructor].
  exists [EvDo req]. rewrite <- app_assoc. simpl.
  assert (Hpost : no_verdict [EvDo req]) by (by repeat constructor).
  destruct (client iss _ req) as [resp|e]; simpl; [|done].
  destruct (negb _); simpl; [done|].
  by destruct (decode_id E (http.Body resp)).
Qed.

Lemma quiet_no_verdict_after (evs : list event) : quiet evs -> no_verdict evs.
Proof. intros Hquiet. eapply Forall_impl; [exact Hquiet|]. by intros [ | | | ]. Qed.

End Issuer.

(** * The pipeline, stretch by stretch *)

Section Phases.

Variables (E : Oracles) (rs : RefreshService) (iss : IssuerService).

Lemma fetch_before_verdict issuerDID claimID :
  spec before_verdict (GetClaimByID E iss issuerDID claimID)
    (fun _ s => before_verdict s) stopped faulted.
Proof.
  intros s Hs.
  destruct (GetClaimByID_run E iss issuerDID claimID s) as (more & Hstate & Hquiet & Hres).
  assert (Hafter : before_verdict (GetClaimByID E iss issuerDID claimID s).2).
  { rewrite Hstate. by apply quiet_app. }
  destruct (GetClaimByID E iss issuerDID claimID s) as [[fetched|e|msg] s']; simpl in *;
    [done|by left|done].
Qed.

Lemma store_before_verdict c :
  spec before_verdict (store c) (fun _ s => before_verdict s) stopped faulted.
Proof. by intros s Hs. Qed.

Lemma store_impact_confirmed c :
  spec impact_confirmed (store c) (fun _ s => impact_confirmed s) stopped faulted.
Proof. by intros s Hs. Qed.

(** The verdict Updated, and only it, lets the run go on; any other
    verdict stops it with an error. *)
Lemma check_index_slots_verdict oldValues newValues :
  spec before_verdict (check_index_slots E rs oldValues newValues)
    (fun _ s => impact_confirmed s) stopped faulted.
Proof.
  intros s Hs. unfold check_index_slots, bind, load, store, emit, fail, panic.
  destruct (isUpdatedIndexSlots E rs (cell s) oldValues newValues)
    as [after [[]|err|msg]]; simpl.
  - by exists (events s).
  - right; left. by exists (events s), err.
  - by left.
Qed.

Lemma reissue_after_verdict issuerDID credReq :
  spec impact_confirmed (CreateCredential E iss issuerDID credReq)
    (fun _ s => reissuing s) stopped faulted.
Proof.
  intros s (pre & Hevents & Hquiet).
  destruct (CreateCredential_run E iss issuerDID credReq s) as (post & Hstate & Hpost & Hres).
  assert (Hafter : reissuing (CreateCredential E iss issuerDID credReq s).2).
  { rewrite Hstate. exists pre, issuerDID, credReq, post. simpl.
    rewrite Hevents, <- app_assoc. by repeat split. }
  destruct (CreateCredential E iss issuerDID credReq s) as [[refreshedID|e|msg] s'];
    simpl in *; [done|by right; right; right|done].
Qed.

Lemma refetch_while_reissuing issuerDID claimID :
  spec reissuing (GetClaimByID E iss issuerDID claimID)
    (fun fetched s => reissuing s /\ is_Some fetched) stopped faulted.
Proof.
  intros s (pre & d & req & post & Hevents & Hquiet & Hpost).
  destruct (GetClaimByID_run E iss issuerDID claimID s) as (more & Hstate & Hmore & Hres).
  assert (Hafter : reissuing (GetClaimByID E iss issuerDID claimID s).2).
  { rewrite Hstate. exists pre, d, req, (post ++ more). simpl.
    rewrite Hevents, <- app_assoc. repeat split; [done|].
    apply Forall_app_2; [done|]. by apply quiet_no_verdict_after. }
  destruct (GetClaimByID E iss issuerDID claimID s) as [[fetched|e|msg] s']; simpl in *;
    [done|by right; right; right|done].
Qed.

End Phases.

Ltac phase_step :=
  eapply spec_bind;
  [ first
      [ apply fetch_before_verdict
      | apply store_before_verdict
      | apply store_impact_confirmed
      | apply check_index_slots_verdict
      | apply reissue_after_verdict
      | apply spec_stateless; [solve_stateless | unfold stopped, faulted; tauto] ]
  | intros ?; cbv beta zeta ].

(** Where a run of the body can end.  It returns normally only after it
    has called [CreateCredential], and then with a credential; it panics
    only before a verdict or after the verdict Updated. *)
Lemma Process_body_phases (E : Oracles) (rs : RefreshService) (issuer owner id : string) :
  spec before_verdict (Process_body E rs issuer owner id)
    (fun fetched s => reissuing s /\ is_Some fetched) stopped faulted.
Proof.
  unfold Process_body. repeat phase_step. apply refetch_while_reissuing.
Qed.

(** * The order of events *)

Section Order.

Implicit Types (evs pre post before after : list event).

Lemma quiet_no_create evs issuerDID req :
  quiet evs -> EvCreateCredential issuerDID req ∉ evs.
Proof.
  intros Hquiet Hin. unfold quiet in Hquiet. rewrite Forall_forall in Hquiet.
  exact (Hquiet _ Hin).
Qed.









Lemma reissuing_has_call s :
  reissuing s -> exists issuerDID credReq, EvCreateCredential issuerDID credReq ∈ events s.
Proof.
  intros (pre & d & r & post & Hs & _). exists d, r. rewrite Hs.
  apply elem_of_app. right. apply elem_of_cons. right. apply elem_of_cons. by left.
Qed.

End Order.

(** What [Process] makes of the three ways its body can end. *)
Lemma Process_run (E : Oracles) (rs : RefreshService) (issuer owner id : string) (s : state) :
  before_verdict s ->
  let run := Process E rs issuer owner id s in
  match (Process_body E rs issuer owner id s).1 with
  | Done fetched => reissuing run.2 /\ is_Some fetched /\ run.1 = (fetched, None)
  | Failed err => stopped run.2 /\ run.1 = (None, Some err)
  | Panicked _ => faulted run.2 /\ run.1 = (None, None)
  end.
Proof.
  intros Hs run. pose proof (Process_body_phases E rs issuer owner id s Hs) as Hbody.
  unfold run, Process.
  destruct (Process_body E rs issuer owner id s) as [[fetched|err|msg] s']; simpl.
  - destruct Hbody. by repeat split.
  - by split.
  - by split.
Qed.




(** * What the pipeline writes to the fetched credential *)

Lemma frame_refl (c : W3CCredential) : changed_within_frame c c.
Proof. split; [by destruct c|by left]. Qed.

Lemma frame_ensure_Context (c0 c : W3CCredential) :
  changed_within_frame c0 c -> changed_within_frame c0 (ensure_Context c).
Proof.
  unfold ensure_Context. destruct (verifiable.Context c) eqn:Hctx; [done|].
  intros [Hfields Hcontext]. split.
  - rewrite Hfields at 1. reflexivity.
  - right. split; [|done]. destruct Hcontext as [?|[? _]]; congruence.
Qed.

Lemma frame_set_CredentialSubject (c0 c : W3CCredential) subject :
  changed_within_frame c0 c ->
  changed_within_frame c0 (verifiable.set_CredentialSubject subject c).
Proof.
  intros [Hfields Hcontext]. split; [|done].
  rewrite Hfields at 1. reflexivity.
Qed.

(** The index-impact analysis writes nothing but the empty context list
    over a nil one. *)
Lemma isUpdatedIndexSlots_cell (E : Oracles) (rs : RefreshService) (c : W3CCredential)
    (oldValues newValues : gmap string value) :
  (isUpdatedIndexSlots E rs (Some c) oldValues newValues).1 = Some c
  \/ (isUpdatedIndexSlots E rs (Some c) oldValues newValues).1 = Some (ensure_Context c).
Proof.
  unfold isUpdatedIndexSlots. repeat case_match; simpl; auto.
Qed.

Section Frame.

Variables (E : Oracles) (rs : RefreshService) (issuer id : string).
Variable c0 : W3CCredential.

Abbreviation W := (within_frame E rs issuer id c0).
Abbreviation FK := (frame_kept E rs issuer id).

Lemma within_frame_kept s : W s -> FK s.
Proof. intros [Hfetch (c & Hcell & Hframe)] c1 Hc1. exists c0. by simplify_eq. Qed.

Lemma empty_cell_kept s : cell s = None -> FK s.
Proof. intros Hnone c1 Hc1. congruence. Qed.

Lemma pure_within_frame {A : Type} (P : state -> Prop) (m : M A) :
  stateless m -> (forall s, P s -> W s) -> spec P m (fun _ s => P s) FK FK.
Proof.
  intros Hm HP. apply spec_stateless; [done|].
  intros s Hs. split; by apply within_frame_kept, HP.
Qed.

Lemma deref_within_frame (P : state -> Prop) :
  (forall s, P s -> W s) -> spec P deref (fun c s => P s /\ cell s = Some c) FK FK.
Proof. intros HP. apply spec_deref. intros s Hs. by apply within_frame_kept, HP. Qed.

Lemma store_within_frame (P : state -> Prop) c subject :
  (forall s, P s -> W s /\ cell s = Some c) ->
  spec P (store (Some (verifiable.set_CredentialSubject subject c))) (fun _ s => W s) FK FK.
Proof.
  intros HP s Hs. destruct (HP s Hs) as [[Hfetch (c' & Hcell & Hframe)] Hc]. simpl.
  split; [done|]. eexists. split; [done|].
  apply frame_set_CredentialSubject. by simplify_eq.
Qed.

Lemma check_within_frame (P : state -> Prop) oldValues newValues :
  (forall s, P s -> W s) ->
  spec P (check_index_slots E rs oldValues newValues) (fun _ s => W s) FK FK.
Proof.
  intros HP s Hs. destruct (HP s Hs) as [Hfetch (c & Hcell & Hframe)].
  unfold check_index_slots, bind, load, store, emit, fail, panic. rewrite Hcell.
  pose proof (isUpdatedIndexSlots_cell E rs c oldValues newValues) as Hafter.
  assert (Hstored : forall evs, W {| events := evs;
            cell := (isUpdatedIndexSlots E rs (Some c) oldValues newValues).1 |}).
  { intros evs. split; [done|]. destruct Hafter as [->| ->]; eexists; (split; [done|]);
      [done|by apply frame_ensure_Context]. }
  destruct (isUpdatedIndexSlots E rs (Some c) oldValues newValues)
    as [after [[]|err|msg]]; simpl in *; [done|by apply within_frame_kept..].
Qed.

Lemma reissue_within_frame (P : state -> Prop) iss issuerDID credReq :
  (forall s, P s -> W s) ->
  spec P (CreateCredential E iss issuerDID credReq) (fun _ s => W s) FK FK.
Proof.
  intros HP s Hs. destruct (HP s Hs) as [Hfetch Hheld].
  destruct (CreateCredential_run E iss issuerDID credReq s) as (post & Hstate & _).
  assert (Hafter : W (CreateCredential E iss issuerDID credReq s).2)
    by (by rewrite Hstate).
  destruct (CreateCredential E iss issuerDID credReq s) as [[refreshedID|e|msg] s'];
    simpl in *; [done|by apply within_frame_kept..].
Qed.

Lemma refetch_within_frame (P : state -> Prop) iss issuerDID claimID :
  (forall s, P s -> W s) ->
  spec P (GetClaimByID E iss issuerDID claimID) (fun _ s => FK s) FK FK.
Proof.
  intros HP s Hs. destruct (HP s Hs) as [Hfetch Hheld].
  destruct (GetClaimByID_run E iss issuerDID claimID s) as (more & Hstate & _).
  assert (Hafter : W (GetClaimByID E iss issuerDID claimID s).2)
    by (by rewrite Hstate).
  destruct (GetClaimByID E iss issuerDID claimID s) as [[fetched|e|msg] s'];
    simpl in *; by apply within_frame_kept.
Qed.

End Frame.

Ltac frame_premise :=
  let s := fresh "s" in
  let Hs := fresh "Hs" in
  intros s Hs; cbv beta in Hs; tauto.

Ltac frame_step E rs issuer id c0 :=
  eapply spec_bind;
  [ first
      [ apply (check_within_frame E rs issuer id c0); frame_premise
      | apply (store_within_frame E rs issuer id c0); frame_premise
      | apply (deref_within_frame E rs issuer id c0); frame_premise
      | apply (reissue_within_frame E rs issuer id c0); frame_premise
      | apply (pure_within_frame E rs issuer id c0); [solve_stateless | frame_premise] ]
  | intros ?; cbv beta zeta ].

(** Whatever the run, the cell ends up empty or holding the fetched
    credential changed within the frame. *)
Lemma Process_body_frame (E : Oracles) (rs : RefreshService) (issuer owner id : string) :
  spec (fun s => s = init) (Process_body E rs issuer owner id)
    (fun _ s => frame_kept E rs issuer id s)
    (frame_kept E rs issuer id) (frame_kept E rs issuer id).
Proof.
  unfold Process_body.
  eapply spec_bind; [apply spec_require; by intros s ->|intros iss; cbv beta].
  apply spec_assuming. intros Hiss.
  eapply spec_bind;
    [apply spec_stateless; [solve_stateless|by intros s ->]|intros ?; cbv beta].
  eapply (spec_bind
            (Q := fun fetched s =>
                    cell s = None
                    /\ exists s0, GetClaimByID E iss issuer id init = (Done fetched, s0))).
  { intros s ->.
    destruct (GetClaimByID_run E iss issuer id init) as (more & Hstate & _).
    destruct (GetClaimByID E iss issuer id init) as [[fetched|e|msg] s'] eqn:Hfetch;
      simpl in *; subst s'; [by eauto|done..]. }
  intros fetched. cbv beta.
  eapply (spec_bind
            (Q := fun _ s =>
                    cell s = fetched
                    /\ exists s0, GetClaimByID E iss issuer id init = (Done fetched, s0))).
  { by intros s [_ Hfetch]. }
  intros ?. cbv beta.
  eapply (spec_bind (Q := fun c0 s => within_frame E rs issuer id c0 s)).
  { intros s [Hcell [s0 Hfetch]]. unfold require.
    destruct fetched as [c0|]; simpl; [|by apply empty_cell_kept].
    split; [by exists iss, s0|]. exists c0. split; [done|apply frame_refl]. }
  intros c0. cbv beta.
  repeat frame_step E rs issuer id c0.
  apply (refetch_within_frame E rs issuer id c0). frame_premise.
Qed.

(** C9, as stated, fails on a credential fetched without context list
    whose claim sits at position None: the index-impact analysis writes the
    empty list into the credential, so that another field than the subject
    map has changed by the end of the run. *)
Lemma context_written_by_analysis :
  let c0 := demo_expired "birthday" (JNum (19960424 # 1)) in
  exists c1,
    fetched_as (demo_world "birthday" (JNum (19960424 # 1)))
      (demo_service (Some demo_loader) (Some {[ "birthday" := JNum (19960425 # 1) ]}))
      "did:example:issuer" "cred-1" c0
    /\ cell (demo_refresh "birthday" (JNum (19960424 # 1)) (JNum (19960425 # 1))).2 = Some c1
    /\ verifiable.Context c0 = None
    /\ verifiable.Context c1 = Some []
    /\ ~ only_subject_changed c0 c1.
Proof.
  intros c0. eexists. split; [|split; [vm_compute; reflexivity|]].
  - eexists _, _. split; [reflexivity|]. vm_compute. reflexivity.
  - split; [reflexivity|]. split; [reflexivity|].
    unfold only_subject_changed. intros Heq.
    apply (f_equal verifiable.Context) in Heq. discriminate.
Qed.

(** C9 (amended): throughout a run of [Process] from a fresh start, the
    credential the first fetch returned is left as fetched but for two
    fields: its subject map, and its context list, which changes only from
    nil to the empty list.  Every other field is unchanged. *)
Theorem fetched_credential_frame
    (E : Oracles) (rs : RefreshService) (issuer owner id : string) (c1 : W3CCredential) :
  cell (Process E rs issuer owner id init).2 = Some c1 ->
  exists c0, fetched_as E rs issuer id c0 /\ changed_within_frame c0 c1.
Proof.
  pose proof (Process_body_frame E rs issuer owner id init eq_refl) as Hbody.
  unfold Process.
  destruct (Process_body E rs issuer owner id init) as [[fetched|err|msg] s']; simpl;
    apply Hbody.
Qed.

Lemma fetched_credential_frame_witness :
  exists c0,
    fetched_as (demo_world "birthday" (JNum (19960424 # 1)))
      (demo_service (Some demo_loader) (Some {[ "birthday" := JNum (19960425 # 1) ]}))
      "did:example:issuer" "cred-1" c0
    /\ changed_within_frame c0
         (verifiable.set_CredentialSubject
            (Some (demo_subject "birthday" (JNum (19960425 # 1))))
            (verifiable.set_Context (Some [])
               (demo_expired "birthday" (JNum (19960424 # 1))))).
Proof.
  apply (fetched_credential_frame (demo_world "birthday" (JNum (19960424 # 1)))
           (demo_service (Some demo_loader) (Some {[ "birthday" := JNum (19960425 # 1) ]}))
           "did:example:issuer" "did:example:owner" "cred-1").
  vm_compute. reflexivity.
Defined.

(** * The recovered panic *)

(** How the three ways the body can end reach the caller. *)
Lemma Process_result (E : Oracles) (rs : RefreshService) (issuer owner id : string) :
  match (Process_body E rs issuer owner id init).1 with
  | Done _ => exists c, (Process E rs issuer owner id init).1 = (Some c, None)
  | Failed err => (Process E rs issuer owner id init).1 = (None, Some err)
  | Panicked _ => (Process E rs issuer owner id init).1 = (None, None)
  end.
Proof.
  assert (Hinit : before_verdict init) by constructor.
  pose proof (Process_run E rs issuer owner id init Hinit) as Hrun. cbv zeta in Hrun.
  destruct (Process_body E rs issuer owner id init).1 as [fetched|err|msg].
  - destruct Hrun as (_ & [c ->] & ->). by exists c.
  - by destruct Hrun.
  - by destruct Hrun.
Qed.

(** C1 fails on the code.  The credential [cred-1] holds an array in a
    field that resolves to index slot 2, and the provider returns an array
    for that field: comparing the two panics inside the index-impact
    analysis, the deferred function recovers, and [Process] hands the
    caller neither a credential nor an error. *)
Theorem Process_recovered_panic_returns_nothing :
  let E := demo_world "tags" (JArr [JStr "a"]) in
  let rs := demo_service (Some demo_loader) (Some {[ "tags" := JArr [JStr "b"] ]}) in
  (Process_body E rs "did:example:issuer" "did:example:owner" "cred-1" init).1
  = Panicked uncomparable
  /\ (demo_refresh "tags" (JArr [JStr "a"]) (JArr [JStr "b"])).1 = (None, None).
Proof. split; vm_compute; reflexivity. Qed.


(** * Every stage before the reissuance *)

Ltac stop H Hc Hnone :=
  cbv beta iota in H; simplify_eq; cbn [events cell] in Hc;
  exfalso; destruct Hnone as [Hnone0 Hnone1];
  first [exact (Hnone0 Hc) | exact (Hnone1 _ Hc)].

Ltac exec H :=
  unfold bind at 1 in H;
  cbv beta iota delta [require reject_if check lift ret fail panic history load deref store
                         emit] in H.

Lemma isUpdatedIndexSlots_subject (E : Oracles) (rs : RefreshService) (c : W3CCredential)
    (oldValues newValues : gmap string value) after verdict :
  isUpdatedIndexSlots E rs (Some c) oldValues newValues = (after, verdict) ->
  exists c1, after = Some c1
             /\ verifiable.CredentialSubject c1 = verifiable.CredentialSubject c
             /\ verifiable.Schema c1 = verifiable.Schema c.
Proof.
  intros Hrun.
  destruct (isUpdatedIndexSlots_cell E rs c oldValues newValues) as [Hcell|Hcell];
    rewrite Hrun in Hcell; simpl in Hcell; subst after; eexists; (split; [done|]).
  - done.
  - unfold ensure_Context. by destruct (verifiable.Context c).
Qed.

Lemma merge_into_subject (E : Oracles) (subject updatedFields : gmap string value) s :
  merge_into E (Some subject) updatedFields s
  = (Done (Some (merge_subject E subject updatedFields)), s).
Proof.
  unfold merge_into, merge_subject. by destruct (range_order E updatedFields).
Qed.

(** A run that calls [CreateCredential] went through every stage before
    the call. *)
Lemma reissue_needs_every_stage
    (E : Oracles) (rs : RefreshService) (issuer owner id : string) issuerDID credReq :
  EvCreateCredential issuerDID credReq ∈ events (Process E rs issuer owner id init).2 ->
  reissue_ready E rs issuer owner id.
Proof.
  assert (Hsame : (Process E rs issuer owner id init).2
                  = (Process_body E rs issuer owner id init).2).
  { unfold Process. by destruct (Process_body E rs issuer owner id init) as [[?|?|?] ?]. }
  rewrite Hsame. clear Hsame.
  destruct (Process_body E rs issuer owner id init) as [o sf] eqn:H. simpl.
  intros Hc. unfold Process_body in H.
  exec H. destruct (issuerService rs) as [iss|] eqn:Hiss.
  2:{ simplify_eq. by apply elem_of_nil in Hc. }
  exec H. destruct (documentLoader rs) as [dl|] eqn:Hdl.
  2:{ simplify_eq. by apply elem_of_nil in Hc. }
  unfold bind at 1 in H.
  destruct (GetClaimByID_run E iss issuer id init) as (more & Hs1 & Hquiet & Hres).
  destruct (GetClaimByID E iss issuer id init) as [[fetched|e|msg] s0] eqn:Hfetch;
    simpl in Hs1, Hres; [|simplify_eq; by destruct (quiet_no_create _ _ _ Hquiet Hc)|done].
  exec H. exec H.
  destruct fetched as [c0|]; [|by destruct Hres].
  assert (Hnone : (EvCreateCredential issuerDID credReq ∉ events s0)
                  /\ forall v, EvCreateCredential issuerDID credReq
                               ∉ (events s0 ++ [EvIndexCheck v])).
  { rewrite Hs1. simpl. split; [|intros v]; intros Hin.
    - by destruct (quiet_no_create _ _ _ Hquiet Hin).
    - apply elem_of_app in Hin as [Hin|Hin%list_elem_of_singleton]; [|discriminate].
      by destruct (quiet_no_create _ _ _ Hquiet Hin). }
  clear Hs1 Hquiet Hres more.
  exec H. destruct (String.eqb (verifiable.Issuer c0) "") eqn:Hissuer; [stop H Hc Hnone|].
  exec H. destruct (String.eqb (verifiable.ID c0) "") eqn:Hid; [stop H Hc Hnone|].
  exec H. destruct (verifiable.Type_ c0) as [type|] eqn:Htype; [|stop H Hc Hnone].
  exec H. destruct (verifiable.Expiration c0) as [expiration|] eqn:Hexpiration;
    [|stop H Hc Hnone].
  exec H. destruct (verifiable.CredentialSubject c0) as [subject|] eqn:Hsubject;
    [|stop H Hc Hnone].
  exec H. cbn [events cell] in H.
  exec H. destruct (isUpdatable (Some c0) (time_Now E (events s0))) eqn:Hupdatable;
    [stop H Hc Hnone|].
  exec H. destruct (checkOwnerShip (Some c0) owner) eqn:Howner; [stop H Hc Hnone|].
  exec H. destruct (subject !! "type") as [typeValue|] eqn:Htypefield; [|stop H Hc Hnone].
  exec H. destruct typeValue as [ | | |subjectType| | ]; try stop H Hc Hnone.
  destruct (String.eqb subjectType "") eqn:Hsubtype; [stop H Hc Hnone|].
  exec H. destruct (TypeIDFromContext E (Some dl) (marshal_credential E c0) subjectType)
    as [credentialType|e] eqn:Htypeid; [|stop H Hc Hnone].
  exec H.
  destruct (flexiblehttp.ProduceFlexibleHTTP (providers rs) credentialType)
    as [flexibleHTTP|e] eqn:Hprovider; cbn [on_error] in H; [|stop H Hc Hnone].
  exec H. destruct (flexiblehttp.Provide flexibleHTTP subject) as [provided|e] eqn:Hprovide;
    [|stop H Hc Hnone].
  unfold bind at 1 in H. unfold check_index_slots in H. exec H. cbn [events cell] in H.
  destruct (isUpdatedIndexSlots E rs (Some c0) subject
              match provided with Some fields => fields | None => ∅ end)
    as [after verdict] eqn:Hcheck.
  pose proof (isUpdatedIndexSlots_subject _ _ _ _ _ _ _ Hcheck) as (c1 & -> & Hsubject1 & Hschema1).
  exec H. cbn [events cell] in H.
  destruct verdict as [[]|err|msg].
  2:{ exec H. cbn [events cell] in H. stop H Hc Hnone. }
  2:{ stop H Hc Hnone. }
  cbn [events cell] in H.
  exec H. cbn [events cell] in H.
  unfold bind at 1 in H. rewrite Hsubject1, Hsubject, merge_into_subject in H.
  exec H. cbn [events cell] in H.
  exec H. cbn [events cell] in H.
  exec H.
  destruct (extractRevocationNonce _) as [revNonce [err|]] eqn:Hnonce; [stop H Hc Hnone|].
  exec H. cbn [verifiable.Schema verifiable.set_CredentialSubject] in H.
  rewrite Hschema1 in H.
  destruct (String.eqb (verifiable.SchemaID (verifiable.Schema c0)) "") eqn:Hschema;
    [stop H Hc Hnone|].
  clear H Hc Hnone.
  exists iss, c0, s0, subject, subjectType, credentialType, flexibleHTTP, provided, c1, revNonce.
  cbv zeta. rewrite Hdl.
  apply String.eqb_neq in Hissuer, Hid, Hsubtype, Hschema.
  repeat split; eauto.
Qed.

(** * Reissuance only after the verdict Updated *)


(** * Ownership *)

(** X1: [checkOwnerShip] accepts a credential exactly when the [id] entry
    of its subject is a string with the bytes of the claimed owner; a
    missing subject, a missing entry, an entry that is not a string and a
    string that differs in any byte are all rejected. *)
Theorem checkOwnerShip_exact (c : W3CCredential) (owner : string) :
  checkOwnerShip (Some c) owner = None <-> subject_id c = Some (JStr owner).
Proof.
  unfold checkOwnerShip, subject_id.
  destruct (verifiable.CredentialSubject c) as [subject|]; [|done].
  destruct (subject !! "id") as [[ | | |idValue| | ]|]; try done.
  destruct (String.eqb_spec idValue owner) as [->|Hne]; [done|].
  split; [done|]. intros [= ->]. done.
Qed.

(** * The issuer table and the basic-auth table *)

(** X2: [getIssuerURL] is a two-tier lookup: the entry of the issuer
    itself wins, the entry under the wildcard serves only when the issuer
    has none, and the lookup fails, with an error wrapping
    [ErrIssuerNotSupported], exactly when both are missing. *)
Theorem getIssuerURL_two_tier (iss : IssuerService) (issuerDID : string) :
  (forall url,
     getIssuerURL iss issuerDID = Ok url
     <-> supportedIssuers iss !! issuerDID = Some url
         \/ (supportedIssuers iss !! issuerDID = None
             /\ supportedIssuers iss !! "*" = Some url))
  /\ (forall e,
        getIssuerURL iss issuerDID = Err e
        <-> supportedIssuers iss !! issuerDID = None
            /\ supportedIssuers iss !! "*" = None
            /\ e = Wrap ErrIssuerNotSupported ("id '" +:+ issuerDID +:+ "'")).
Proof.
  unfold getIssuerURL.
  destruct (supportedIssuers iss !! issuerDID) as [own|];
    [|destruct (supportedIssuers iss !! "*") as [wild|]].
  - split; [intros url|intros e]; split.
    + intros [= ->]. by left.
    + intros [[= ->]|[[=] _]]. done.
    + intros [=].
    + intros [[=] _].
  - split; [intros url|intros e]; split.
    + intros [= ->]. by right.
    + intros [[=]|[_ [= ->]]]. done.
    + intros [=].
    + intros (_ & [=] & _).
  - split; [intros url|intros e]; split.
    + intros [=].
    + intros [[=]|[_ [=]]].
    + intros [= <-]. done.
    + intros (_ & _ & ->). done.
Qed.

Section Split.

Variable sep : ascii.

(** Splitting at the first separator: either there is none and the string
    comes back whole, or the string is cut in two around it. *)
Lemma SplitN2_cases (s : string) :
  (SplitN2 sep s = [s] /\ has_byte sep s = false)
  \/ exists before after,
       SplitN2 sep s = [before; after]
       /\ s = before +:+ String sep after
       /\ has_byte sep before = false.
Proof.
  induction s as [|c s IH]; simpl.
  { by left. }
  destruct (Ascii.eqb_spec c sep) as [->|Hne].
  { right. by exists "", s. }
  destruct IH as [[-> Hnone]|(before & after & -> & -> & Hnone)].
  - by left.
  - right. exists (String c before), after. simpl.
    apply Ascii.eqb_neq in Hne. rewrite Hne, Hnone. by repeat split.
Qed.

(** Joining and splitting again gives the two parts back. *)
Lemma SplitN2_join (before after : string) :
  has_byte sep before = false ->
  SplitN2 sep (before +:+ String sep after) = [before; after].
Proof.
  induction before as [|c before IH]; simpl; intros Hnone.
  { by rewrite Ascii.eqb_refl. }
  apply orb_false_iff in Hnone as [Hc Hnone]. rewrite Hc, IH by done. done.
Qed.

End Split.

(** [strings.SplitN(s, ":", 2)] as [setBasicAuth] uses it cuts an
    entry at its first colon only: the entry [user ++ ":" ++ pass] with no
    colon in [user] splits into exactly [user] and [pass], colons inside
    the password being kept, and every two-part result arises this way. *)
Lemma SplitN2_first_colon (namepass user pass : string) :
  SplitN2 ":" namepass = [user; pass]
  <-> namepass = user +:+ String ":" pass /\ has_byte ":" user = false.
Proof.
  split.
  - intros Hsplit.
    destruct (SplitN2_cases ":" namepass) as [[Hwhole _]|(u & p & Hpair & Hjoin & Hnone)].
    + rewrite Hwhole in Hsplit. discriminate.
    + rewrite Hpair in Hsplit. by simplify_eq.
  - intros [-> Hnone]. by apply SplitN2_join.
Qed.

(** X3: [setBasicAuth] touches nothing but the credentials of the request.
    Without an entry for the issuer, own or wildcard, the request goes out
    as it came.  With an entry that holds a colon, the credentials are the
    text before the first colon and the text after it.  With an entry that
    holds no colon, the call fails and the request is not to be sent. *)
Theorem setBasicAuth_outcome
    (E : Oracles) (iss : IssuerService) (issuerDID : string) (req : http.Request) :
  match basic_auth_entry iss issuerDID with
  | None => setBasicAuth E iss issuerDID req = Ok req
  | Some namepass =>
      if has_byte ":" namepass
      then exists user pass,
             namepass = user +:+ String ":" pass
             /\ has_byte ":" user = false
             /\ setBasicAuth E iss issuerDID req
                = Ok {| http.Method := http.Method req; http.URL := http.URL req;
                        http.RequestBody := http.RequestBody req;
                        http.BasicAuth := Some (user, pass) |}
      else setBasicAuth E iss issuerDID req
           = Err (New ("invalid basic auth: " +:+ strconv_Quote E namepass))
  end.
Proof.
  unfold setBasicAuth, basic_auth_entry.
  destruct (issuerBasicAuth iss) as [auth|]; [|done].
  destruct (match auth !! issuerDID with Some namepass => Some namepass | None => auth !! "*" end)
    as [namepass|]; [|done].
  destruct (SplitN2_cases ":" namepass) as [[-> ->]|(user & pass & -> & Hjoin & Hnone)].
  - done.
  - assert (Hcolon : has_byte ":" namepass = true).
    { rewrite Hjoin. clear Hjoin Hnone. induction user as [|c user IH]; simpl; [done|].
      rewrite IH. apply orb_true_r. }
    rewrite Hcolon. by exists user, pass.
Qed.

(** * The revocation nonce: when extraction fails, and what integers give *)

(** X4: [extractRevocationNonce] reports no error exactly when the status
    of the credential is a map that holds a number under
    [revocationNonce]; in every other case (status absent or not a map, key
    missing, value null or not a number) it returns the nonce 0 together
    with an error. *)
Theorem extractRevocationNonce_numbers_only (c : W3CCredential) :
  ((extractRevocationNonce (Some c)).2 = None
   <-> exists status n,
         verifiable.CredentialStatus c = JObj status
         /\ status !! "revocationNonce" = Some (JNum n))
  /\ (is_Some (extractRevocationNonce (Some c)).2 -> (extractRevocationNonce (Some c)).1 = 0).
Proof.
  unfold extractRevocationNonce.
  destruct (verifiable.CredentialStatus c) as [ | | | | |status];
    try (split; [split; [done|by intros (? & ? & [=] & _)]|done]).
  destruct (status !! "revocationNonce") as [[ | |n| | | ]|] eqn:Hnonce; simpl;
    try (split; [split; [done|intros (status' & n' & [= <-] & Hn'); congruence]|done]).
  split; [|by intros [? [=]]]. split; [|done]. intros _. by exists status, n.
Qed.



(** * The subject merge as an overlay *)

(** X6: whatever the order in which the loop visits the provider's
    fields, the merged subject holds, under every key, the provider's value
    when the provider returned the key and the old value otherwise; its
    keys are those of the old subject and of the provider's map; and merging
    the same fields a second time changes nothing. *)
Theorem merge_subject_overlay (E : Oracles) (subject updatedFields : gmap string value) :
  range_is_permutation E updatedFields ->
  (forall k, merge_subject E subject updatedFields !! k
             = match updatedFields !! k with
               | Some v => Some v
               | None => subject !! k
               end)
  /\ dom (merge_subject E subject updatedFields) = dom updatedFields ∪ dom subject
  /\ merge_subject E (merge_subject E subject updatedFields) updatedFields
     = merge_subject E subject updatedFields.
Proof.
  intros Hperm. rewrite !merge_subject_union by done. split; [|split].
  - intros k. rewrite lookup_union. by destruct (updatedFields !! k), (subject !! k).
  - apply dom_union_L.
  - apply map_eq. intros k. rewrite !lookup_union.
    by destruct (updatedFields !! k), (subject !! k).
Qed.

Lemma merge_subject_overlay_witness :
  let E := demo_world "birthday" (JNum (19960424 # 1)) in
  merge_subject E (merge_subject E (demo_subject "birthday" (JNum (19960424 # 1)))
                     {[ "birthday" := JNum (19960425 # 1) ]})
    {[ "birthday" := JNum (19960425 # 1) ]}
  = merge_subject E (demo_subject "birthday" (JNum (19960424 # 1)))
      {[ "birthday" := JNum (19960425 # 1) ]}.
Proof.
  intros E.
  refine (proj2 (proj2 (merge_subject_overlay E _ {[ "birthday" := JNum (19960425 # 1) ]} _))).
  unfold range_is_permutation. reflexivity.
Defined.

(** * Context aggregation when nothing resolves *)

(** X7: [loadContexts] tells the empty list from a list that yields
    nothing.  For a list that is not empty and in which no URI contributes
    an entry, the encoded document has [@context] null, since the slice it
    appends to was never allocated, whereas the empty list gives an empty
    array. *)
Theorem loadContexts_nothing_resolved
    (E : Oracles) (rs : RefreshService) (dl : ld.DocumentLoader) (contexts : list string) :
  documentLoader rs = Some dl ->
  contexts <> [] ->
  aggregate dl contexts = [] ->
  loadContexts E rs (Some contexts) = Ok (json_Marshal E (JObj {[ "@context" := JNull ]}))
  /\ loadContexts E rs (Some []) = Ok (json_Marshal E (JObj {[ "@context" := JArr [] ]})).
Proof.
  intros Hdl Hne Hnothing. unfold loadContexts. rewrite Hdl. split; [|done].
  destruct contexts as [|context contexts]; [done|].
  by rewrite loadContexts_loop, Hnothing.
Qed.

Lemma loadContexts_nothing_resolved_witness :
  let E := demo_oracles core.MerklizedRootPositionNone (fun _ => Ok 0)
             (fun _ => Err (New "no body")) in
  loadContexts E (demo_service (Some demo_loader) None)
    (Some ["https://example.org/missing.jsonld"; ""])
  = Ok (json_Marshal E (JObj {[ "@context" := JNull ]})).
Proof.
  intros E.
  refine (proj1 (loadContexts_nothing_resolved E (demo_service (Some demo_loader) None)
                   demo_loader ["https://example.org/missing.jsonld"; ""] eq_refl _ _)).
  - discriminate.
  - reflexivity.
Defined.

(** * Index-impact analysis: what an Updated verdict rests on *)

Lemma range_fields_Some body (entries : list (string * value)) r :
  range_fields body entries = Some r -> exists kv, kv ∈ entries /\ body kv = Some r.
Proof.
  induction entries as [|kv entries IH]; simpl; [done|].
  destruct (body kv) as [r'|] eqn:Hkv.
  - intros [= ->]. exists kv. split; [left|done].
  - intros (kv' & Hin & Hbody)%IH. exists kv'. split; [by right|done].
Qed.

Lemma range_fields_ext body1 body2 (entries : list (string * value)) :
  (forall kv, kv ∈ entries -> body1 kv = body2 kv) ->
  range_fields body1 entries = range_fields body2 entries.
Proof.
  induction entries as [|kv entries IH]; simpl; intros Hext; [done|].
  rewrite (Hext kv) by left. destruct (body2 kv); [done|].
  apply IH. intros kv' Hin. apply Hext. by right.
Qed.

(** X8: under merklized root position None, the verdict Updated always
    has a reason in the old subject: a field other than [id] and [type],
    looked up under a type that is a string, whose slot lookup reports "not
    specified in serialization info", or which resolves to slot 2 or 3, is
    present in the new values and compares as different.  Without such a
    field the analysis never answers Updated. *)
Theorem updated_verdict_has_reason
    (E : Oracles) (rs : RefreshService) (c : W3CCredential) (claim : Claim E)
    (oldValues newValues : gmap string value) :
  range_is_permutation E oldValues ->
  ParseClaim E (documentLoader rs) c = Ok claim ->
  GetMerklizedPosition E claim = Ok core.MerklizedRootPositionNone ->
  (isUpdatedIndexSlots E rs (Some c) oldValues newValues).2 = Done tt ->
  exists k v typeStr credentialBytes,
    oldValues !! k = Some v
    /\ ~ reserved k
    /\ oldValues !! "type" = Some (JStr typeStr)
    /\ loadContexts E rs (verifiable.Context (ensure_Context c)) = Ok credentialBytes
    /\ ((exists err, GetFieldSlotIndex E k typeStr credentialBytes = Err err
                     /\ Contains (Error err) "not specified in serialization info" = true)
        \/ (exists i v', GetFieldSlotIndex E k typeStr credentialBytes = Ok i
                         /\ (i = 2 \/ i = 3)
                         /\ newValues !! k = Some v'
                         /\ iface_neq v v' = Some true)).
Proof.
  intros Hperm Hparse Hposition. unfold isUpdatedIndexSlots.
  rewrite Hparse, Hposition. cbv zeta.
  destruct (loadContexts E rs _) as [credentialBytes|e] eqn:Hload; [|done].
  destruct (range_fields _ _) as [r|] eqn:Hloop; [|done]. simpl. intros ->.
  apply range_fields_Some in Hloop as ([k v] & Hin & Hstep).
  assert (Hold : oldValues !! k = Some v).
  { apply elem_of_map_to_list. by rewrite <- Hperm. }
  exists k, v. unfold field_step in Hstep.
  destruct (String.eqb k "type" || String.eqb k "id") eqn:Hreserved; [done|].
  assert (Hfree : ~ reserved k).
  { intros Hk. by rewrite (reserved_eqb k Hk) in Hreserved. }
  destruct (oldValues !! "type") as [[ | | |typeStr| | ]|]; try done.
  exists typeStr, credentialBytes. repeat split; try done.
  destruct (GetFieldSlotIndex E k typeStr credentialBytes) as [i|err].
  - right. destruct (newValues !! k) as [v'|]; [|done].
    destruct ((i =? 2) || (i =? 3)) eqn:Hslot; [|done].
    destruct (iface_neq v v') as [[|]|] eqn:Hneq; try done.
    exists i, v'. repeat split; try done. lia.
  - left. destruct (Contains _ _) eqn:Hcontains; [|done]. by exists err.
Qed.

Lemma updated_verdict_has_reason_witness :
  let E := demo_world "birthday" (JNum (19960424 # 1)) in
  let rs := demo_service (Some demo_loader) None in
  let c := demo_expired "birthday" (JNum (19960424 # 1)) in
  let oldValues := demo_subject "birthday" (JNum (19960424 # 1)) in
  let newValues : gmap string value := {[ "birthday" := JNum (19960425 # 1) ]} in
  exists k v typeStr credentialBytes,
    oldValues !! k = Some v
    /\ ~ reserved k
    /\ oldValues !! "type" = Some (JStr typeStr)
    /\ loadContexts E rs (verifiable.Context (ensure_Context c)) = Ok credentialBytes
    /\ ((exists err, GetFieldSlotIndex E k typeStr credentialBytes = Err err
                     /\ Contains (Error err) "not specified in serialization info" = true)
        \/ (exists i v', GetFieldSlotIndex E k typeStr credentialBytes = Ok i
                         /\ (i = 2 \/ i = 3)
                         /\ newValues !! k = Some v'
                         /\ iface_neq v v' = Some true)).
Proof.
  intros E rs c oldValues newValues.
  apply (updated_verdict_has_reason E rs c tt oldValues newValues).
  - unfold range_is_permutation. reflexivity.
  - reflexivity.
  - reflexivity.
  - vm_compute. reflexivity.
Defined.

(** X9: the analysis reads the new values only under the keys of the old
    subject other than [id] and [type].  Two maps of new values that agree
    on those keys get the same verdict and leave the credential in the same
    state; in particular a key the provider adds, or a new [id] or [type],
    never makes the analysis answer Updated. *)
Theorem new_values_read_under_old_keys
    (E : Oracles) (rs : RefreshService) (credential : option W3CCredential)
    (oldValues newValues newValues' : gmap string value) :
  range_is_permutation E oldValues ->
  (forall k, is_Some (oldValues !! k) -> ~ reserved k -> newValues !! k = newValues' !! k) ->
  isUpdatedIndexSlots E rs credential oldValues newValues
  = isUpdatedIndexSlots E rs credential oldValues newValues'.
Proof.
  intros Hperm Hagree. unfold isUpdatedIndexSlots.
  destruct credential as [c|]; [|done].
  destruct (ParseClaim E (documentLoader rs) c) as [claim|]; [|done].
  destruct (GetMerklizedPosition E claim) as [[ | | ]|]; try done.
  cbv zeta. destruct (loadContexts E rs _) as [credentialBytes|]; [|done].
  rewrite (range_fields_ext (field_step E credentialBytes oldValues newValues)
             (field_step E credentialBytes oldValues newValues')); [done|].
  intros [k v] Hin. unfold field_step.
  destruct (String.eqb k "type" || String.eqb k "id") eqn:Hreserved; [done|].
  rewrite Hagree; [done| |].
  - exists v. apply elem_of_map_to_list. by rewrite <- Hperm.
  - intros Hk. by rewrite (reserved_eqb k Hk) in Hreserved.
Qed.

Lemma new_values_read_under_old_keys_witness :
  let E := demo_world "birthday" (JNum (19960424 # 1)) in
  let rs := demo_service (Some demo_loader) None in
  let c := demo_expired "birthday" (JNum (19960424 # 1)) in
  isUpdatedIndexSlots E rs (Some c) (demo_subject "birthday" (JNum (19960424 # 1)))
    {[ "nickname" := JStr "zed"; "id" := JStr "did:example:other" ]}
  = isUpdatedIndexSlots E rs (Some c) (demo_subject "birthday" (JNum (19960424 # 1))) ∅.
Proof.
  intros E rs c.
  apply (new_values_read_under_old_keys E rs (Some c)).
  - unfold range_is_permutation. reflexivity.
  - intros k [v Hold] Hfree.
    assert (Hk : k = "birthday").
    { unfold demo_subject in Hold.
      apply lookup_insert_Some in Hold as [[<- _]|[_ Hold]]; [destruct Hfree; by left|].
      apply lookup_insert_Some in Hold as [[<- _]|[_ Hold]]; [destruct Hfree; by right|].
      by apply lookup_singleton_Some in Hold as [<- _]. }
    subst k. vm_compute. reflexivity.
Defined.

(** * What the issuer client sends and when it succeeds *)

(** The request that leaves [setBasicAuth] differs from the one given at
    most in its credentials. *)
Lemma setBasicAuth_keeps (E : Oracles) (iss : IssuerService) (issuerDID : string)
    (req req' : http.Request) :
  setBasicAuth E iss issuerDID req = Ok req' ->
  http.Method req' = http.Method req
  /\ http.URL req' = http.URL req
  /\ http.RequestBody req' = http.RequestBody req.
Proof.
  unfold setBasicAuth. intros Hauth.
  repeat case_match; simplify_eq; done.
Qed.

Ltac after_request issuerNode req :=
  split; [done|right; exists issuerNode, req; split_and!; try done].

(** X10: [GetClaimByID] never writes to the fetched credential and sends
    at most one request.  Either nothing is sent and the call fails, or one
    GET without body goes to
    [<node>/v2/identities/<issuer>/credentials/<claim>] on the node of the
    issuer; then a credential is returned only when the answer has status
    200 and its body reads and decodes, and it is the decoded credential,
    while every failure after the request went out wraps [ErrGetClaim]. *)
Theorem GetClaimByID_outcome
    (E : Oracles) (iss : IssuerService) (issuerDID claimID : string) (s : state) :
  cell (GetClaimByID E iss issuerDID claimID s).2 = cell s
  /\ ((events (GetClaimByID E iss issuerDID claimID s).2
       = events s ++ [EvGetClaimByID issuerDID claimID]
       /\ exists e, (GetClaimByID E iss issuerDID claimID s).1 = Failed e)
      \/ exists issuerNode req,
           getIssuerURL iss issuerDID = Ok issuerNode
           /\ http.Method req = "GET"
           /\ http.URL req
              = issuerNode +:+ "/v2/identities/" +:+ issuerDID +:+ "/credentials/" +:+ claimID
           /\ http.RequestBody req = None
           /\ events (GetClaimByID E iss issuerDID claimID s).2
              = events s ++ [EvGetClaimByID issuerDID claimID; EvDo req]
           /\ match (GetClaimByID E iss issuerDID claimID s).1 with
              | Done fetched =>
                  exists resp rawBody vc,
                    client iss (sent (events s ++ [EvGetClaimByID issuerDID claimID])) req
                    = Ok resp
                    /\ http.StatusCode resp = 200
                    /\ http.Body resp = Ok rawBody
                    /\ unmarshal_vc E rawBody = Ok vc
                    /\ fetched = Some vc
              | Failed e => exists text, e = Wrap ErrGetClaim text
              | Panicked _ => False
              end).
Proof.
  unfold GetClaimByID, Do, bind, emit, history, lift, on_error, reject_if, ret, fail, NewRequest.
  simpl.
  destruct (getIssuerURL iss issuerDID) as [issuerNode|e]; simpl; [|split; [done|left; eauto]].
  destruct (url_error E _); simpl; [split; [done|left; eauto]|].
  destruct (setBasicAuth E iss issuerDID _) as [req|e] eqn:Hauth; simpl;
    [|split; [done|left; eauto]].
  apply setBasicAuth_keeps in Hauth as (Hmethod & Hurl & Hbody). simpl in Hmethod, Hurl, Hbody.
  rewrite <- app_assoc. simpl.
  destruct (client iss _ req) as [resp|e] eqn:Hdo; simpl;
    [|after_request issuerNode req; unfold wrapf; eauto].
  destruct (Z.eqb_spec (http.StatusCode resp) http.StatusOK) as [Hstatus|Hstatus]; simpl;
    [|after_request issuerNode req; eauto].
  destruct (http.Body resp) as [rawBody|e] eqn:Hread; simpl;
    [|after_request issuerNode req; unfold wrapf; eauto].
  destruct (unmarshal_vc E rawBody) as [vc|e] eqn:Hdecode; simpl;
    [|after_request issuerNode req; unfold wrapf; eauto].
  after_request issuerNode req. exists resp, rawBody, vc. done.
Qed.

(** X11: [CreateCredential] sends at most one request.  Either nothing is
    sent and the call fails, or one POST goes to
    [<node>/v2/identities/<issuer>/credentials] with the encoded request as
    its body; then an identifier is returned only when the answer has status
    201 and its body decodes, and every failure after the request went out
    wraps [ErrCreateClaim]. *)
Theorem CreateCredential_outcome
    (E : Oracles) (iss : IssuerService) (issuerDID : string) (credReq : credentialRequest)
    (s : state) :
  cell (CreateCredential E iss issuerDID credReq s).2 = cell s
  /\ ((events (CreateCredential E iss issuerDID credReq s).2
       = events s ++ [EvCreateCredential issuerDID credReq]
       /\ exists e, (CreateCredential E iss issuerDID credReq s).1 = Failed e)
      \/ exists issuerNode req,
           getIssuerURL iss issuerDID = Ok issuerNode
           /\ http.Method req = "POST"
           /\ http.URL req = issuerNode +:+ "/v2/identities/" +:+ issuerDID +:+ "/credentials"
           /\ (exists body, marshal_request E credReq = Ok body
                            /\ http.RequestBody req = Some body)
           /\ events (CreateCredential E iss issuerDID credReq s).2
              = events s ++ [EvCreateCredential issuerDID credReq; EvDo req]
           /\ match (CreateCredential E iss issuerDID credReq s).1 with
              | Done refreshedID =>
                  exists resp,
                    client iss (sent (events s ++ [EvCreateCredential issuerDID credReq])) req
                    = Ok resp
                    /\ http.StatusCode resp = 201
                    /\ decode_id E (http.Body resp) = Ok refreshedID
              | Failed e => exists text, e = Wrap ErrCreateClaim text
              | Panicked _ => False
              end).
Proof.
  unfold CreateCredential, Do, bind, emit, history, lift, on_error, reject_if, ret, fail,
    NewRequest.
  simpl.
  destruct (getIssuerURL iss issuerDID) as [issuerNode|e]; simpl; [|split; [done|left; eauto]].
  destruct (marshal_request E credReq) as [body|e]; simpl; [|split; [done|left; eauto]].
  destruct (url_error E _); simpl; [split; [done|left; eauto]|].
  destruct (setBasicAuth E iss issuerDID _) as [req|e] eqn:Hauth; simpl;
    [|split; [done|left; eauto]].
  apply setBasicAuth_keeps in Hauth as (Hmethod & Hurl & Hbody). simpl in Hmethod, Hurl, Hbody.
  rewrite <- app_assoc. simpl.
  assert (Hsame : exists body', Ok body = Ok body' /\ http.RequestBody req = Some body')
    by eauto.
  destruct (client iss _ req) as [resp|e] eqn:Hdo; simpl;
    [|after_request issuerNode req; unfold wrapf; eauto].
  destruct (Z.eqb_spec (http.StatusCode resp) http.StatusCreated) as [Hstatus|Hstatus]; simpl;
    [|after_request issuerNode req; eauto].
  destruct (decode_id E (http.Body resp)) as [refreshedID|e] eqn:Hdecode; simpl;
    [|after_request issuerNode req; unfold wrapf; eauto].
  after_request issuerNode req. exists resp. done.
Qed.

(** * What a run of [Process] sends *)

(** The index-impact analysis leaves everything but the context list of the
    credential as it was. *)
Lemma isUpdatedIndexSlots_rest (E : Oracles) (rs : RefreshService) (c : W3CCredential)
    (oldValues newValues : gmap string value) after verdict :
  isUpdatedIndexSlots E rs (Some c) oldValues newValues = (after, verdict) ->
  exists c1, after = Some c1
             /\ verifiable.CredentialStatus c1 = verifiable.CredentialStatus c
             /\ verifiable.RefreshService c1 = verifiable.RefreshService c
             /\ verifiable.DisplayMethod c1 = verifiable.DisplayMethod c.
Proof.
  intros Hrun.
  destruct (isUpdatedIndexSlots_cell E rs c oldValues newValues) as [Hcell|Hcell];
    rewrite Hrun in Hcell; simpl in Hcell; subst after; eexists; (split; [done|]).
  - done.
  - unfold ensure_Context. by destruct (verifiable.Context c).
Qed.

Ltac run_step :=
  unfold bind at 1;
  cbv beta iota delta [require reject_if check lift ret fail panic history load deref store
                         emit].

(** Once every stage went through, what is left of the run is the call of
    [CreateCredential] with the request built from the fetched credential,
    and the fetch of the credential it names. *)
Lemma Process_body_reissues
    (E : Oracles) (rs : RefreshService) (issuer owner id : string)
    iss c0 s0 subject subjectType credentialType flexibleHTTP provided c1 revNonce :
  let updatedFields := match provided with Some fields => fields | None => ∅ end in
  let merged := merge_subject E subject updatedFields in
  let s1 := {| events := events s0 ++ [EvIndexCheck None];
               cell := Some (verifiable.set_CredentialSubject (Some merged) c1) |} in
  issuerService rs = Some iss ->
  is_Some (documentLoader rs) ->
  GetClaimByID E iss issuer id init = (Done (Some c0), s0) ->
  verifiable.Issuer c0 <> "" ->
  verifiable.ID c0 <> "" ->
  is_Some (verifiable.Type_ c0) ->
  is_Some (verifiable.Expiration c0) ->
  verifiable.CredentialSubject c0 = Some subject ->
  isUpdatable (Some c0) (time_Now E (events s0)) = None ->
  checkOwnerShip (Some c0) owner = None ->
  subject !! "type" = Some (JStr subjectType) ->
  subjectType <> "" ->
  TypeIDFromContext E (documentLoader rs) (marshal_credential E c0) subjectType
  = Ok credentialType ->
  flexiblehttp.ProduceFlexibleHTTP (providers rs) credentialType = Ok flexibleHTTP ->
  flexiblehttp.Provide flexibleHTTP subject = Ok provided ->
  isUpdatedIndexSlots E rs (Some c0) subject updatedFields = (Some c1, Done tt) ->
  extractRevocationNonce (Some (verifiable.set_CredentialSubject (Some merged) c1))
  = (revNonce, None) ->
  verifiable.SchemaID (verifiable.Schema c0) <> "" ->
  Process_body E rs issuer owner id init
  = (refreshedID <--
       CreateCredential E iss issuer
         (reissue_request E c0 subject subjectType flexibleHTTP provided revNonce
            (time_Now E (events s1)));;
     GetClaimByID E iss issuer refreshedID) s1.
Proof.
  intros updatedFields merged s1 Hiss [dl Hdl] Hfetch Hissuer Hid [type Htype]
    [expiration Hexpiration] Hsubject Hupdatable Howner Htypefield Hsubtype Htypeid Hprovider
    Hprovide Hcheck Hnonce Hschema.
  apply String.eqb_neq in Hissuer, Hid, Hsubtype, Hschema.
  pose proof (isUpdatedIndexSlots_subject _ _ _ _ _ _ _ Hcheck)
    as (c1' & [= <-] & Hsubject1 & Hschema1).
  pose proof (isUpdatedIndexSlots_rest _ _ _ _ _ _ _ Hcheck)
    as (c1' & [= <-] & _ & Hrefresh1 & Hdisplay1).
  unfold Process_body.
  run_step. rewrite Hiss.
  run_step. rewrite Hdl.
  unfold bind at 1. rewrite Hfetch.
  run_step. run_step. run_step. rewrite Hissuer.
  run_step. rewrite Hid.
  run_step. rewrite Htype.
  run_step. rewrite Hexpiration.
  run_step. rewrite Hsubject.
  run_step. cbn [events cell].
  run_step. rewrite Hupdatable.
  run_step. rewrite Howner.
  run_step. rewrite Htypefield.
  run_step. rewrite Hsubtype.
  run_step. rewrite <- Hdl, Htypeid.
  run_step. rewrite Hprovider. cbn [on_error].
  run_step. rewrite Hprovide.
  unfold bind at 1. unfold check_index_slots. run_step. cbn [events cell].
  fold updatedFields. rewrite Hcheck.
  run_step. cbn [events cell].
  run_step. cbn [events cell].
  unfold bind at 1. rewrite Hsubject1, Hsubject, merge_into_subject.
  run_step. cbn [events cell].
  run_step. cbn [events cell].
  run_step. fold merged. rewrite Hnonce.
  run_step. cbn [verifiable.Schema verifiable.set_CredentialSubject]. rewrite Hschema1, Hschema.
  run_step. cbn [events cell].
  change (verifiable.CredentialSubject (verifiable.set_CredentialSubject (Some merged) c1))
    with (Some merged).
  change (verifiable.RefreshService (verifiable.set_CredentialSubject (Some merged) c1))
    with (verifiable.RefreshService c1).
  change (verifiable.DisplayMethod (verifiable.set_CredentialSubject (Some merged) c1))
    with (verifiable.DisplayMethod c1).
  rewrite Hrefresh1, Hdisplay1. reflexivity.
Qed.

Lemma Process_state (E : Oracles) (rs : RefreshService) (issuer owner id : string) (s : state) :
  (Process E rs issuer owner id s).2 = (Process_body E rs issuer owner id s).2.
Proof. unfold Process. by destruct (Process_body E rs issuer owner id s) as [[?|?|?] ?]. Qed.

(** The events of a reissuance: its call, then at most one request. *)
Lemma CreateCredential_events (E : Oracles) (iss : IssuerService) (issuerDID : string)
    (credReq : credentialRequest) (s : state) :
  exists post,
    events (CreateCredential E iss issuerDID credReq s).2
    = events s ++ EvCreateCredential issuerDID credReq :: post
    /\ forall d r, EvCreateCredential d r ∉ post.
Proof.
  assert (Hnil : forall d r, EvCreateCredential d r ∉ @nil event)
    by (intros d r Hin; by apply elem_of_nil in Hin).
  unfold CreateCredential, Do, bind, emit, history, lift, on_error, reject_if, ret, fail,
    NewRequest.
  simpl.
  destruct (getIssuerURL iss issuerDID) as [issuerNode|e]; simpl; [|by exists []].
  destruct (marshal_request E credReq) as [body|e]; simpl; [|by exists []].
  destruct (url_error E _); simpl; [by exists []|].
  destruct (setBasicAuth E iss issuerDID _) as [req|e]; simpl; [|by exists []].
  exists [EvDo req]. rewrite <- app_assoc. simpl.
  assert (Hone : forall d r, EvCreateCredential d r ∉ [EvDo req])
    by (intros d r Hin%list_elem_of_singleton; discriminate).
  destruct (client iss _ req) as [resp|e]; simpl; [|done].
  destruct (negb _); simpl; [done|].
  by destruct (decode_id E (http.Body resp)).
Qed.

(** The events of a run that reissues: those of the first fetch, the
    verdict Updated, one call of [CreateCredential], and nothing else that
    is such a call. *)
Lemma reissuing_run_events
    (E : Oracles) (iss : IssuerService) (issuer : string) (credReq : credentialRequest)
    (pre : list event) (s1 : state) :
  quiet pre ->
  events s1 = pre ++ [EvIndexCheck None] ->
  exists after,
    events ((refreshedID <-- CreateCredential E iss issuer credReq;;
             GetClaimByID E iss issuer refreshedID) s1).2
    = events s1 ++ EvCreateCredential issuer credReq :: after
    /\ (forall d r, EvCreateCredential d r ∉ events s1)
    /\ (forall d r, EvCreateCredential d r ∉ after).
Proof.
  intros Hquiet Hs1.
  assert (Hbefore : forall d r, EvCreateCredential d r ∉ events s1).
  { rewrite Hs1. intros d r [Hin|Hin%list_elem_of_singleton]%elem_of_app; [|discriminate].
    by destruct (quiet_no_create _ _ _ Hquiet Hin). }
  destruct (CreateCredential_events E iss issuer credReq s1) as (post & Hpost & Hnone).
  unfold bind.
  destruct (CreateCredential E iss issuer credReq s1) as [[refreshedID|e|msg] s2];
    simpl in Hpost; [|by exists post|by exists post].
  destruct (GetClaimByID_run E iss issuer refreshedID s2) as (more & -> & Hmore & _).
  exists (post ++ more). simpl. rewrite Hpost. split; [by rewrite <- app_assoc|].
  split; [done|].
  intros d r [Hin|Hin]%elem_of_app; [by destruct (Hnone d r)|].
  by destruct (quiet_no_create _ _ _ Hmore Hin).
Qed.

(** What [isUpdatable] and [checkOwnerShip] have established when both
    pass. *)
Lemma eligible_owner (c : W3CCredential) (owner : string) (now : Z) :
  isUpdatable (Some c) now = None ->
  checkOwnerShip (Some c) owner = None ->
  TrimSpace owner <> ""
  /\ subject_id c = Some (JStr owner)
  /\ exists t, verifiable.Expiration c = Some t /\ t <= now.
Proof.
  unfold isUpdatable, checkOwnerShip, subject_id. intros Hupdatable Howner.
  destruct (verifiable.Expiration c) as [t|]; [|done].
  destruct (Z.ltb_spec now t) as [?|Hpast]; [done|].
  destruct (verifiable.CredentialSubject c) as [subject|]; [|done].
  destruct (subject !! "id") as [[ | | |idValue| | ]|]; try done.
  destruct (String.eqb_spec idValue owner) as [->|Hne]; [|done].
  destruct (String.eqb_spec (TrimSpace owner) "") as [?|Hfull]; [done|].
  split; [done|]. split; [done|by exists t].
Qed.

(** X12: whatever request a run of [Process] hands to [CreateCredential]
    is addressed to the issuer the caller named and is built from the
    credential fetched first: its schema id, the [type] entry of its
    subject, its subject overlaid with the fields of the provider, its
    refresh service and display method, the revocation nonce of its status,
    and as expiration the clock reading taken after the index-impact check
    plus the provider's duration, five minutes when that is zero, in whole
    seconds.  A run makes at most one such call. *)
Theorem reissue_request_shape
    (E : Oracles) (rs : RefreshService) (issuer owner id issuerDID : string)
    (credReq : credentialRequest) :
  EvCreateCredential issuerDID credReq ∈ events (Process E rs issuer owner id init).2 ->
  issuerDID = issuer
  /\ (exists iss c0 s0 subject subjectType credentialType flexibleHTTP provided revNonce,
        issuerService rs = Some iss
        /\ GetClaimByID E iss issuer id init = (Done (Some c0), s0)
        /\ verifiable.CredentialSubject c0 = Some subject
        /\ subject !! "type" = Some (JStr subjectType)
        /\ TypeIDFromContext E (documentLoader rs) (marshal_credential E c0) subjectType
           = Ok credentialType
        /\ flexiblehttp.ProduceFlexibleHTTP (providers rs) credentialType = Ok flexibleHTTP
        /\ flexiblehttp.Provide flexibleHTTP subject = Ok provided
        /\ extractRevocationNonce (Some c0) = (revNonce, None)
        /\ credReq
           = reissue_request E c0 subject subjectType flexibleHTTP provided revNonce
               (time_Now E (events s0 ++ [EvIndexCheck None])))
  /\ (exists before after,
        events (Process E rs issuer owner id init).2
        = before ++ EvCreateCredential issuerDID credReq :: after
        /\ (forall d r, EvCreateCredential d r ∉ before)
        /\ (forall d r, EvCreateCredential d r ∉ after)).
Proof.
  intros Hin.
  destruct (reissue_needs_every_stage E rs issuer owner id issuerDID credReq Hin)
    as (iss & c0 & s0 & subject & subjectType & credentialType & flexibleHTTP & provided & c1
        & revNonce & Hready).
  cbv zeta in Hready.
  destruct Hready as (Hiss & Hdl & Hfetch & Hissuer & Hid & Htype & Hexpiration & Hsubject
                      & Hupdatable & Howner & Htypefield & Hsubtype & Htypeid & Hprovider
                      & Hprovide & Hcheck & Hnonce & Hschema).
  pose proof (Process_body_reissues E rs issuer owner id iss c0 s0 subject subjectType
                credentialType flexibleHTTP provided c1 revNonce Hiss Hdl Hfetch Hissuer Hid
                Htype Hexpiration Hsubject Hupdatable Howner Htypefield Hsubtype Htypeid
                Hprovider Hprovide Hcheck Hnonce Hschema) as Hrun.
  cbn [events] in Hrun.
  rewrite Process_state, Hrun in Hin |- *.
  assert (Hquiet : quiet (events s0)).
  { destruct (GetClaimByID_run E iss issuer id init) as (more & Hs0 & Hmore & _).
    rewrite Hfetch in Hs0. simpl in Hs0. by subst s0. }
  set (issued := reissue_request E c0 subject subjectType flexibleHTTP provided revNonce
                   (time_Now E (events s0 ++ [EvIndexCheck None]))) in *.
  set (s1 := {| events := events s0 ++ [EvIndexCheck None]; cell := _ |}) in *.
  pose proof (reissuing_run_events E iss issuer issued (events s0) s1 Hquiet eq_refl)
    as (after & Hevents & Hbefore & Hafter).
  rewrite Hevents in Hin |- *.
  assert (Hsame : EvCreateCredential issuerDID credReq = EvCreateCredential issuer issued).
  { apply elem_of_app in Hin as [Hin|Hin]; [by destruct (Hbefore _ _ Hin)|].
    apply elem_of_cons in Hin as [Hin|Hin]; [done|by destruct (Hafter _ _ Hin)]. }
  injection Hsame as -> ->.
  split; [done|]. split.
  - exists iss, c0, s0, subject, subjectType, credentialType, flexibleHTTP, provided, revNonce.
    split_and!; try done.
    destruct (isUpdatedIndexSlots_rest _ _ _ _ _ _ _ Hcheck) as (c1' & [= <-] & Hstatus & _).
    rewrite <- Hnonce. unfold extractRevocationNonce.
    cbn [verifiable.CredentialStatus verifiable.set_CredentialSubject]. by rewrite Hstatus.
  - by exists (events s1), after.
Qed.

Lemma reissue_request_shape_witness :
  let E := demo_world "birthday" (JNum (19960424 # 1)) in
  let rs := demo_service (Some demo_loader) (Some {[ "birthday" := JNum (19960425 # 1) ]}) in
  let run := Process E rs "did:example:issuer" "did:example:owner" "cred-1" init in
  "did:example:issuer" = "did:example:issuer"
  /\ (exists iss c0 s0 subject subjectType credentialType flexibleHTTP provided revNonce,
        issuerService rs = Some iss
        /\ GetClaimByID E iss "did:example:issuer" "cred-1" init = (Done (Some c0), s0)
        /\ verifiable.CredentialSubject c0 = Some subject
        /\ subject !! "type" = Some (JStr subjectType)
        /\ TypeIDFromContext E (documentLoader rs) (marshal_credential E c0) subjectType
           = Ok credentialType
        /\ flexiblehttp.ProduceFlexibleHTTP (providers rs) credentialType = Ok flexibleHTTP
        /\ flexiblehttp.Provide flexibleHTTP subject = Ok provided
        /\ extractRevocationNonce (Some c0) = (revNonce, None)
        /\ demo_request
           = reissue_request E c0 subject subjectType flexibleHTTP provided revNonce
               (time_Now E (events s0 ++ [EvIndexCheck None])))
  /\ (exists before after,
        events run.2 = before ++ EvCreateCredential "did:example:issuer" demo_request :: after
        /\ (forall d r, EvCreateCredential d r ∉ before)
        /\ (forall d r, EvCreateCredential d r ∉ after)).
Proof.
  intros E rs run.
  apply (reissue_request_shape E rs "did:example:issuer" "did:example:owner" "cred-1"
           "did:example:issuer" demo_request).
  apply (list_elem_of_lookup_2 _ 3%nat). vm_compute. reflexivity.
Defined.








(** X14: [Process] reissues only for the owner of an expired credential:
    when a run calls [CreateCredential], the credential fetched first has a
    subject whose [id] is the string the caller gave as owner, that string
    is not blank, and the expiration of the credential is not after the
    clock reading taken when it was checked. *)
Theorem reissue_only_for_owner_of_expired
    (E : Oracles) (rs : RefreshService) (issuer owner id issuerDID : string)
    (credReq : credentialRequest) :
  EvCreateCredential issuerDID credReq ∈ events (Process E rs issuer owner id init).2 ->
  exists iss c0 s0,
    issuerService rs = Some iss
    /\ GetClaimByID E iss issuer id init = (Done (Some c0), s0)
    /\ subject_id c0 = Some (JStr owner)
    /\ TrimSpace owner <> ""
    /\ exists t, verifiable.Expiration c0 = Some t /\ t <= time_Now E (events s0).
Proof.
  intros Hin.
  destruct (reissue_needs_every_stage E rs issuer owner id issuerDID credReq Hin)
    as (iss & c0 & s0 & subject & subjectType & credentialType & flexibleHTTP & provided & c1
        & revNonce & Hready).
  cbv zeta in Hready.
  destruct Hready as (Hiss & _ & Hfetch & _ & _ & _ & _ & _ & Hupdatable & Howner & _).
  destruct (eligible_owner c0 owner _ Hupdatable Howner) as (Hfull & Hid & Hexpired).
  by exists iss, c0, s0.
Qed.

Lemma reissue_only_for_owner_of_expired_witness :
  let E := demo_world "birthday" (JNum (19960424 # 1)) in
  let rs := demo_service (Some demo_loader) (Some {[ "birthday" := JNum (19960425 # 1) ]}) in
  exists iss c0 s0,
    issuerService rs = Some iss
    /\ GetClaimByID E iss "did:example:issuer" "cred-1" init = (Done (Some c0), s0)
    /\ subject_id c0 = Some (JStr "did:example:owner")
    /\ TrimSpace "did:example:owner" <> ""
    /\ exists t, verifiable.Expiration c0 = Some t /\ t <= time_Now E (events s0).
Proof.
  intros E rs.
  apply (reissue_only_for_owner_of_expired E rs "did:example:issuer" "did:example:owner"
           "cred-1" "did:example:issuer" demo_request).
  apply (list_elem_of_lookup_2 _ 3%nat). vm_compute. reflexivity.
Defined.

(** X15: a service without issuer client or without document loader does
    nothing: [Process] returns an error and no credential, records no call
    and sends no request, and leaves the state as it found it. *)
Theorem Process_misconfigured
    (E : Oracles) (rs : RefreshService) (issuer owner id : string) (s : state) :
  issuerService rs = None \/ documentLoader rs = None ->
  exists text, Process E rs issuer owner id s = ((None, Some (New text)), s).
Proof.
  unfold Process, Process_body, bind, require, ret, fail.
  intros [Hnil|Hnil].
  - rewrite Hnil. by eexists.
  - destruct (issuerService rs); rewrite ?Hnil; by eexists.
Qed.

Lemma Process_misconfigured_witness :
  exists text,
    Process (demo_world "birthday" (JNum (19960424 # 1))) (demo_service None None)
      "did:example:issuer" "did:example:owner" "cred-1" init
    = ((None, Some (New text)), init).
Proof.
  apply (Process_misconfigured (demo_world "birthday" (JNum (19960424 # 1)))
           (demo_service None None) "did:example:issuer" "did:example:owner" "cred-1" init).
  right. reflexivity.
Defined.

(** X16: the credential [Process] returns is not the one it merged in
    memory but the one the issuer serves afterwards: a run that returns a
    credential called [CreateCredential] right after the verdict Updated,
    got an identifier back, and returns what [GetClaimByID] then fetched
    under that identifier. *)
Theorem Process_returns_refetched
    (E : Oracles) (rs : RefreshService) (issuer owner id : string) (c : W3CCredential) :
  (Process E rs issuer owner id init).1 = (Some c, None) ->
  exists iss credReq s1 refreshedID s2,
    issuerService rs = Some iss
    /\ impact_confirmed s1
    /\ CreateCredential E iss issuer credReq s1 = (Done refreshedID, s2)
    /\ GetClaimByID E iss issuer refreshedID s2
       = (Done (Some c), (Process E rs issuer owner id init).2).
Proof.
  intros Hresult.
  assert (Hinit : before_verdict init) by constructor.
  pose proof (Process_run E rs issuer owner id init Hinit) as Hrun. cbv zeta in Hrun.
  destruct (Process_body E rs issuer owner id init).1 as [fetched|err|msg] eqn:Hbody.
  2:{ destruct Hrun as [_ Hrun]. congruence. }
  2:{ destruct Hrun as [_ Hrun]. congruence. }
  destruct Hrun as (Hreissuing & _ & Hfetched).
  rewrite Hresult in Hfetched. injection Hfetched as <-.
  destruct (reissuing_has_call _ Hreissuing) as (issuerDID & credReq & Hin).
  destruct (reissue_needs_every_stage E rs issuer owner id issuerDID credReq Hin)
    as (iss & c0 & s0 & subject & subjectType & credentialType & flexibleHTTP & provided & c1
        & revNonce & Hready).
  cbv zeta in Hready.
  destruct Hready as (Hiss & Hdl & Hfetch & Hissuer & Hid & Htype & Hexpiration & Hsubject
                      & Hupdatable & Howner & Htypefield & Hsubtype & Htypeid & Hprovider
                      & Hprovide & Hcheck & Hnonce & Hschema).
  pose proof (Process_body_reissues E rs issuer owner id iss c0 s0 subject subjectType
                credentialType flexibleHTTP provided c1 revNonce Hiss Hdl Hfetch Hissuer Hid
                Htype Hexpiration Hsubject Hupdatable Howner Htypefield Hsubtype Htypeid
                Hprovider Hprovide Hcheck Hnonce Hschema) as Hforward.
  rewrite Process_state.
  set (issued := reissue_request _ _ _ _ _ _ _ _) in Hforward.
  set (s1 := {| events := events s0 ++ [EvIndexCheck None]; cell := _ |}) in Hforward.
  assert (Hconfirmed : impact_confirmed s1).
  { exists (events s0). split; [done|].
    destruct (GetClaimByID_run E iss issuer id init) as (more & Hs0 & Hmore & _).
    rewrite Hfetch in Hs0. simpl in Hs0. by subst s0. }
  rewrite Hforward in Hbody |- *. unfold bind in Hbody |- *.
  destruct (CreateCredential E iss issuer issued s1) as [[refreshedID|e|msg] s2] eqn:Hcreate;
    [|done|done].
  exists iss, issued, s1, refreshedID, s2.
  split; [done|]. split; [done|]. split; [done|].
  destruct (GetClaimByID E iss issuer refreshedID s2) as [o s3]. simpl in Hbody. by subst o.
Qed.

Lemma Process_returns_refetched_witness :
  let E := demo_world "birthday" (JNum (19960424 # 1)) in
  let rs := demo_service (Some demo_loader) (Some {[ "birthday" := JNum (19960425 # 1) ]}) in
  let c := demo_credential "cred-2" None (Some 302000)
             (demo_subject "birthday" (JNum (19960424 # 1))) demo_status in
  exists iss credReq s1 refreshedID s2,
    issuerService rs = Some iss
    /\ impact_confirmed s1
    /\ CreateCredential E iss "did:example:issuer" credReq s1 = (Done refreshedID, s2)
    /\ GetClaimByID E iss "did:example:issuer" refreshedID s2
       = (Done (Some c),
          (Process E rs "did:example:issuer" "did:example:owner" "cred-1" init).2).
Proof.
  intros E rs c.
  apply (Process_returns_refetched E rs "did:example:issuer" "did:example:owner" "cred-1" c).
  vm_compute. reflexivity.
Defined.
